(** * ResumeLens: the skill-set matcher and the request handlers of [app.py]

    A shallow embedding of [src/app.py].  The local, deterministic part
    of the program (splitting two comma-separated skill lists, building
    the two sets, the match percentage, the missing skills, the ranking
    of the candidates) is embedded as executable functions; the external
    collaborators (the PDF library, the hosted model, the JSON parser and
    the chart renderer) are the variables of a section.

    Conventions.
    - A Python [str] is a sequence of code points; the embedding covers
      the code points below 256, one [ascii] each, with [str.isspace] and
      [str.lower] as Python defines them on that range.
    - A Python [set] of strings is a [gset string]; [len] is [size].
    - A Python [float] is an IEEE 754 binary64 number: [spec_float] with
      the operations of [SpecFloat] at precision 53 and [emax = 1024].
    - A call that can raise returns an [option]; [None] is the raised
      exception. *)

From Stdlib Require Import ZArith Lia List Ascii String Bool.
From Stdlib Require Import Floats.SpecFloat.
From stdpp Require Import base gmap sets list strings sorting.

Set Default Proof Using "Type".
#[local] Set Warnings "-clear-no-such-hyp".
Local Open Scope string_scope.

(** ** Strings *)

Module Str.

(** [str.isspace] on one code point below 256: the ASCII controls 9-13
    and 28-31, the space, NEL (133) and the no-break space (160). *)
Definition isspace (c : ascii) : bool :=
  let n := nat_of_ascii c in
  (Nat.leb 9 n && Nat.leb n 13) || (Nat.leb 28 n && Nat.leb n 32)
  || Nat.eqb n 133 || Nat.eqb n 160.

(** [str.lower] on one code point below 256: A-Z and the Latin-1 capitals
    192-222 (but not the multiplication sign, 215) move up by 32. *)
Definition lower_char (c : ascii) : ascii :=
  let n := nat_of_ascii c in
  if (Nat.leb 65 n && Nat.leb n 90)
     || (Nat.leb 192 n && Nat.leb n 222 && negb (Nat.eqb n 215))
  then ascii_of_nat (n + 32) else c.

Fixpoint lower (s : string) : string :=
  match s with
  | EmptyString => EmptyString
  | String c s' => String (lower_char c) (lower s')
  end.

Fixpoint lstrip (s : string) : string :=
  match s with
  | EmptyString => EmptyString
  | String c s' => if isspace c then lstrip s' else s
  end.

Fixpoint rstrip (s : string) : string :=
  match s with
  | EmptyString => EmptyString
  | String c s' =>
      match rstrip s' with
      | EmptyString => if isspace c then EmptyString else String c EmptyString
      | r => String c r
      end
  end.

(** [s.strip()] *)
Definition strip (s : string) : string := rstrip (lstrip s).

(** [s.split(sep)] for a one-character separator: never the empty list,
    [''.split(',') = ['']]. *)
Fixpoint split (sep : ascii) (s : string) : list string :=
  match s with
  | EmptyString => [EmptyString]
  | String c s' =>
      if Ascii.eqb c sep then EmptyString :: split sep s'
      else match split sep s' with
           | [] => [String c EmptyString]
           | t :: ts => String c t :: ts
           end
  end.

(** [sep.join(l)] *)
Fixpoint join (sep : string) (l : list string) : string :=
  match l with
  | [] => EmptyString
  | [t] => t
  | t :: ts => t ++ sep ++ join sep ts
  end.

(** Truth value of a string: [bool(s)]. *)
Definition truthy (s : string) : bool :=
  match s with EmptyString => false | _ => true end.

(** [s.startswith(p)] *)
Fixpoint startswith (p s : string) : bool :=
  match p, s with
  | EmptyString, _ => true
  | String a p', String b s' => Ascii.eqb a b && startswith p' s'
  | String _ _, EmptyString => false
  end.

Fixpoint drop (n : nat) (s : string) : string :=
  match n, s with
  | O, _ => s
  | S n', String _ s' => drop n' s'
  | S _, EmptyString => EmptyString
  end.

(** [s.replace(old, "")] for a non-empty [old]: the occurrences are
    removed from left to right, without overlap.  [fuel] is the length of
    [s]. *)
Fixpoint remove_fuel (fuel : nat) (old s : string) : string :=
  match fuel with
  | O => s
  | S fuel' =>
      match s with
      | EmptyString => EmptyString
      | String c s' =>
          if startswith old s
          then remove_fuel fuel' old (drop (String.length old) s)
          else String c (remove_fuel fuel' old s')
      end
  end.

Definition remove (old s : string) : string :=
  remove_fuel (String.length s) old s.

(** [c in s] *)
Fixpoint has_char (c : ascii) (s : string) : bool :=
  match s with
  | EmptyString => false
  | String a s' => Ascii.eqb a c || has_char c s'
  end.

(** Whether every character of [s] satisfies [p]. *)
Fixpoint only_chars (p : ascii -> bool) (s : string) : bool :=
  match s with
  | EmptyString => true
  | String a s' => p a && only_chars p s'
  end.

(** A string of commas and white space only. *)
Definition blank (s : string) : bool :=
  only_chars (fun c => Ascii.eqb c "," || isspace c) s.

(** A string that does not start with white space. *)
Definition starts_clean (s : string) : bool :=
  match s with
  | EmptyString => true
  | String c _ => negb (isspace c)
  end.

End Str.

(** ** Floating point: the three operations of the score *)

Module Float.

Definition prec : Z := 53.
Definition emax : Z := 1024.

(** An integer as the exact, not yet rounded, binary number [n * 2^0]. *)
Definition of_int_exact (n : Z) : spec_float :=
  match n with
  | Z0 => S754_zero false
  | Zpos p => S754_finite false p 0
  | Zneg p => S754_finite true p 0
  end.

(** [float(n)]: the integer rounded to the nearest double. *)
Definition of_int (n : Z) : spec_float := binary_normalize prec emax n 0 false.

(** [a / b] on two Python ints: the correctly rounded quotient of the two
    integers ([ZeroDivisionError] when [b = 0]).  Below [2^53] both
    operands are exact doubles and this is their IEEE quotient. *)
Definition int_truediv (a b : Z) : option spec_float :=
  if Z.eqb b 0 then None
  else Some (SFdiv prec emax (of_int_exact a) (of_int_exact b)).

(** [x * n] for a float [x] and an int [n]. *)
Definition mul_int (x : spec_float) (n : Z) : spec_float :=
  SFmul prec emax x (of_int n).

(** [int(x)]: truncation toward zero; infinities and NaN raise. *)
Definition to_int (x : spec_float) : option Z :=
  match x with
  | S754_zero _ => Some 0%Z
  | S754_finite s m e =>
      let mag := match e with
                 | Zneg k => Z.shiftr (Zpos m) (Zpos k)
                 | _ => Z.shiftl (Zpos m) e
                 end in
      Some (if s then Z.opp mag else mag)
  | S754_infinity _ | S754_nan => None
  end.

(** Whether the bits shifted out of a mantissa were not all zero. *)
Definition inexact (r : shr_record) : bool := shr_r r || shr_s r.

(** The width of the interval a location leaves open above a mantissa. *)
Definition slack (l : location) : Z :=
  match l with loc_Exact => 0%Z | loc_Inexact _ => 1%Z end.

End Float.

(** ** The skill-set matcher *)

(** [{s.strip().lower() for s in text.split(',') if s.strip()}] *)
Definition skill_tokens (text : string) : list string :=
  map (fun s => Str.lower (Str.strip s))
      (List.filter (fun s => Str.truthy (Str.strip s)) (Str.split "," text)).

Definition skill_set (text : string) : gset string :=
  list_to_set (skill_tokens text).

(** A token as the comprehension leaves it: trimmed, lower-cased, not
    empty and free of commas. *)
Definition normal_token (t : string) : Prop :=
  Str.has_char "," t = false /\ Str.strip t = t /\ Str.lower t = t
  /\ Str.truthy t = true.

(** [int((m / n) * 100)] on two ints. *)
Definition ratio_percent (m n : Z) : option Z :=
  match Float.int_truediv m n with
  | None => None
  | Some q => Float.to_int (Float.mul_int q 100)
  end.

(** [int((len(matched) / len(job_set)) * 100)] *)
Definition percentage (matched job : gset string) : option Z :=
  ratio_percent (Z.of_nat (size matched)) (Z.of_nat (size job)).

(** The match percentage in the words of the specification: the size of
    the intersection over the size of the job set, times 100, floored. *)
Definition floor_percentage (matched job : gset string) : Z :=
  (100 * Z.of_nat (size matched) / Z.of_nat (size job))%Z.

(** Whether [ratio_percent] is the floor of the exact percentage for
    every [m <= n] with [1 <= n < bound]. *)
Definition floor_below (bound : nat) : bool :=
  forallb (fun n =>
    forallb (fun m =>
      match ratio_percent (Z.of_nat m) (Z.of_nat n) with
      | Some v => Z.eqb v (100 * Z.of_nat m / Z.of_nat n)%Z
      | None => false
      end) (seq 0 (S n))) (seq 1 (bound - 1)).

(** [calculate_match_score], lines 77-83. *)
Definition calculate_match_score (resume_skills job_skills : string) : option Z :=
  if negb (Str.truthy resume_skills) || negb (Str.truthy job_skills) then Some 0%Z
  else
    let resume_set := skill_set resume_skills in
    let job_set := skill_set job_skills in
    let matched := resume_set ∩ job_set in
    if decide (job_set = ∅) then Some 0%Z else percentage matched job_set.

(** [list(job_set - resume_set)], lines 196 and 256.  The order in which
    Python lists a set is not specified; [elements] is one such order. *)
Definition missing_skills (resume_set job_set : gset string) : list string :=
  elements (job_set ∖ resume_set).

(** The match percentage as [analyze] computes it in line, lines 192-198. *)
Definition analyze_match_percentage
    (resume_skills_text job_skills_text : string) : option Z :=
  let resume_skills_set := skill_set resume_skills_text in
  let job_skills_set := skill_set job_skills_text in
  let matched_skills := job_skills_set ∩ resume_skills_set in
  if decide (job_skills_set = ∅) then Some 0%Z
  else percentage matched_skills job_skills_set.

(** ** [list.sort(key=..., reverse=True)] *)

(** Python's sort is stable and compares with [<] only.  With
    [reverse=True] CPython reverses the list, sorts it, and reverses the
    result, which keeps equal keys in their original order. *)
Section Sort.
Context {A : Type} (key : A -> Z).

Fixpoint insert_sorted (x : A) (l : list A) : list A :=
  match l with
  | [] => [x]
  | y :: l' =>
      if (key y <? key x)%Z then y :: insert_sorted x l' else x :: l
  end.

Definition stable_sort (l : list A) : list A :=
  foldr insert_sorted [] l.

Definition list_sort (reverse : bool) (l : list A) : list A :=
  if reverse then rev (stable_sort (rev l)) else stable_sort l.
End Sort.

(** ** JSON values, as [json.loads] returns them *)

#[local] Unset Elimination Schemes.
Inductive json :=
| JNull
| JBool (b : bool)
| JNum (n : Z)
| JStr (s : string)
| JArr (l : list json)
| JObj (items : list (string * json)).
#[local] Set Elimination Schemes.

(** [bool(v)] *)
Definition json_truthy (v : json) : bool :=
  match v with
  | JNull => false
  | JBool b => b
  | JNum n => negb (Z.eqb n 0)
  | JStr s => Str.truthy s
  | JArr l => match l with [] => false | _ => true end
  | JObj items => match items with [] => false | _ => true end
  end.

(** [d.get(k, default)] on the items of a dict. *)
Fixpoint dict_get (items : list (string * json)) (k : string) (default : json) : json :=
  match items with
  | [] => default
  | (k', v) :: rest => if String.eqb k' k then v else dict_get rest k default
  end.

(** ** The request handlers *)

Record upload := { filename : string; content : string }.

Record candidate := {
  name : json;
  email : json;
  phone : json;
  match_percentage : Z;
  cand_missing_skills : list string;
  pdf_name : string;
  pie_chart : string
}.

Record analysis := {
  an_match_percentage : Z;
  an_missing_skills : list string;
  an_recommended_jobs : json;
  an_resume_skills : string;
  an_job_skills : string
}.

Record ranking := { candidates : list candidate; bar_chart : string }.

(** What [jsonify(...)] or [jsonify(...), status] answers. *)
Inductive response (A : Type) :=
| Ok (body : A)
| Error (status : Z) (message : string).
Arguments Ok {A} body.
Arguments Error {A} status message.

Record analyze_request := {
  ar_resume : option string;
  ar_job_desc : option string
}.

Record recruiter_request := {
  rr_resumes : option (list upload);
  rr_job_desc : option string
}.

Record cover_letter_request := {
  cl_resume_skills : option string;
  cl_job_desc : option string
}.

Definition nl : string := String (ascii_of_nat 10) EmptyString.
Definition dq : string := String (ascii_of_nat 34) EmptyString.
Definition fence : string := "```".
Definition fence_json : string := "```json".

Section Handlers.
(** The external collaborators.  [World] is the state of the hosted
    model as successive calls see it; a call answers the text of the
    response, or [None] when it raises. *)
Variable Model : Type.
Variable World : Type.
Variable make_model : string -> option Model.
Variable generate_content : Model -> string -> World -> option string * World.
Variable PdfReader : string -> option (list (option string)).
Variable json_loads : string -> option json.
Variable generate_pie_chart_base64 : Z -> string.
Variable generate_bar_chart_base64 : list json -> list Z -> string.

(** State and exceptions of a handler: [None] is an exception that
    nothing catches. *)
Definition M (A : Type) : Type := World -> option A * World.

Definition ret {A} (a : A) : M A := fun w => (Some a, w).
Definition raise {A} : M A := fun w => (None, w).
Definition bind {A B} (m : M A) (k : A -> M B) : M B :=
  fun w => match m w with
           | (Some a, w') => k a w'
           | (None, w') => (None, w')
           end.
Definition lift {A} (o : option A) : M A :=
  match o with Some a => ret a | None => raise end.

Notation "'let*' x ':=' m 'in' k" := (bind m (fun x => k))
  (at level 10, x name, m at level 100, k at level 200).

(** Lines 17-25: the model client, or [None] without a credential. *)
Definition configure (GOOGLE_API_KEY : option string) : option Model :=
  match GOOGLE_API_KEY with
  | None => None
  | Some k => if Str.truthy k then make_model k else None
  end.

Variable gemini_model : option Model.

(** Lines 27-34. *)
Definition extract_text_from_pdf (pdf_file : string) : option string :=
  match PdfReader pdf_file with
  | None => None
  | Some pages =>
      Some (Str.join EmptyString (map (fun t => default EmptyString t) pages))
  end.

Definition truthy_opt (o : option string) : bool :=
  match o with Some s => Str.truthy s | None => false end.

(** Lines 36-47. *)
Definition extract_skills_from_text (text : string) : M (option string) :=
  fun w =>
    match gemini_model with
    | None => (Some None, w)
    | Some model =>
        let prompt :=
          "Extract a concise and precise list of technical skills, separated by commas, from the following text. Do not include job titles or non-technical skills."
          ++ nl ++ text in
        match generate_content model prompt w with
        | (Some t, w') =>
            (Some (if Str.truthy t then Some (Str.strip t) else None), w')
        | (None, w') => (Some None, w')
        end
    end.

(** The reply without its code fences, lines 68 and 129. *)
Definition clean_reply (t : string) : string :=
  Str.strip (Str.remove fence (Str.remove fence_json t)).

(** Lines 49-75. *)
Definition recommend_jobs_from_skills (resume_skills : string) : M (option json) :=
  fun w =>
    match gemini_model with
    | None => (Some None, w)
    | Some model =>
        let prompt :=
          nl ++ "        Based on the provided skills, recommend suitable job roles categorized by experience level (e.g., 'junior', 'mid', 'senior')."
          ++ nl ++ nl ++ "        Skills: " ++ resume_skills
          ++ nl ++ nl ++ "        Return JSON only, in this precise format:"
          ++ nl ++ "        {"
          ++ nl ++ "          " ++ dq ++ "junior" ++ dq ++ ": [" ++ dq ++ "Job Title 1" ++ dq ++ ", " ++ dq ++ "Job Title 2" ++ dq ++ "],"
          ++ nl ++ "          " ++ dq ++ "mid" ++ dq ++ ": [" ++ dq ++ "Job Title 3" ++ dq ++ ", " ++ dq ++ "Job Title 4" ++ dq ++ "],"
          ++ nl ++ "          " ++ dq ++ "senior" ++ dq ++ ": [" ++ dq ++ "Job Title 5" ++ dq ++ "]"
          ++ nl ++ "        }"
          ++ nl ++ "        " in
        match generate_content model prompt w with
        | (Some t, w') => (Some (json_loads (clean_reply t)), w')
        | (None, w') => (Some None, w')
        end
    end.

Definition cover_letter_unavailable : string :=
  "Cover letter generation is currently unavailable. Please check your API key.".
Definition cover_letter_failed : string :=
  "Cover letter generation failed due to an API error.".

(** Lines 85-97. *)
Definition generate_cover_letter (resume_skills job_desc : string) : M string :=
  fun w =>
    match gemini_model with
    | None => (Some cover_letter_unavailable, w)
    | Some model =>
        let prompt :=
          "Generate a concise cover letter highlighting the following skills for the given job description."
          ++ nl ++ nl ++ "Resume Skills: " ++ resume_skills
          ++ nl ++ "Job Description: " ++ job_desc in
        match generate_content model prompt w with
        | (Some t, w') =>
            (Some (if Str.truthy t then t else cover_letter_failed), w')
        | (None, w') => (Some cover_letter_failed, w')
        end
    end.

(** Lines 115-137. *)
Definition extract_name_skills_and_contact (pdf_text : string) : M (option json) :=
  fun w =>
    match gemini_model with
    | None => (Some None, w)
    | Some model =>
        let prompt :=
          nl ++ "        From the following resume text, extract the candidate's name, a comma-separated list of their skills, their email address, and their phone number."
          ++ nl ++ "        Return the information as a JSON object with keys 'name', 'skills', 'email', and 'phone'."
          ++ nl ++ "        Text:"
          ++ nl ++ "        " ++ pdf_text
          ++ nl ++ "        " in
        match generate_content model prompt w with
        | (Some t, w') =>
            (Some (if Str.truthy t then json_loads (clean_reply t) else None), w')
        | (None, w') => (Some None, w')
        end
    end.

(** [POST /analyze], lines 171-212. *)
Definition analyze (req : analyze_request) : M (response analysis) :=
  match ar_resume req, ar_job_desc req with
  | Some resume_file, Some job_desc_text =>
      let pdf_text := extract_text_from_pdf resume_file in
      match pdf_text with
      | Some pdf_text =>
          if negb (Str.truthy pdf_text)
          then ret (Error 500 "Failed to extract text from PDF.")
          else
            let* resume_skills_text := extract_skills_from_text pdf_text in
            let* job_skills_text := extract_skills_from_text job_desc_text in
            match resume_skills_text, job_skills_text with
            | Some resume_skills_text, Some job_skills_text =>
                if negb (Str.truthy resume_skills_text)
                   || negb (Str.truthy job_skills_text)
                then ret (Error 500 "Failed to extract skills from text.")
                else
                  let missing :=
                    missing_skills (skill_set resume_skills_text)
                                   (skill_set job_skills_text) in
                  let* percent :=
                    lift (analyze_match_percentage resume_skills_text
                                                   job_skills_text) in
                  let* recommended_jobs :=
                    recommend_jobs_from_skills resume_skills_text in
                  match recommended_jobs with
                  | Some jobs =>
                      if json_truthy jobs
                      then ret (Ok {| an_match_percentage := percent;
                                      an_missing_skills := missing;
                                      an_recommended_jobs := jobs;
                                      an_resume_skills := resume_skills_text;
                                      an_job_skills := job_skills_text |})
                      else ret (Error 500 "Failed to get job recommendations from AI.")
                  | None =>
                      ret (Error 500 "Failed to get job recommendations from AI.")
                  end
            | _, _ => ret (Error 500 "Failed to extract skills from text.")
            end
      | None => ret (Error 500 "Failed to extract text from PDF.")
      end
  | _, _ => ret (Error 400 "No file or job description provided.")
  end.

(** [POST /generate-cover-letter], lines 214-225. *)
Definition generate_cover_letter_route (req : cover_letter_request)
  : M (response string) :=
  match cl_resume_skills req, cl_job_desc req with
  | Some resume_skills, Some job_desc =>
      if negb (Str.truthy resume_skills) || negb (Str.truthy job_desc)
      then ret (Error 400 "Resume skills or job description not provided.")
      else
        let* cover_letter := generate_cover_letter resume_skills job_desc in
        ret (Ok cover_letter)
  | _, _ => ret (Error 400 "Resume skills or job description not provided.")
  end.

(** One turn of the loop of lines 242-269: the candidate a file yields,
    if it yields one. *)
Definition process_resume (job_skills_text : string)
    (job_skills_set : gset string) (resume_file : upload)
  : M (option candidate) :=
  match extract_text_from_pdf (content resume_file) with
  | None => ret None
  | Some pdf_text =>
      if negb (Str.truthy pdf_text) then ret None
      else
        let* extracted_info := extract_name_skills_and_contact pdf_text in
        match extracted_info with
        | None => ret None
        | Some info =>
            if negb (json_truthy info) then ret None
            else
              match info with
              | JObj items =>
                  match dict_get items "skills" (JStr EmptyString) with
                  | JStr resume_skills_text =>
                      let resume_skills_set := skill_set resume_skills_text in
                      let* percent :=
                        lift (calculate_match_score resume_skills_text
                                                    job_skills_text) in
                      let missing :=
                        missing_skills resume_skills_set job_skills_set in
                      ret (Some
                        {| name := dict_get items "name" (JStr "Unknown Candidate");
                           email := dict_get items "email" (JStr "N/A");
                           phone := dict_get items "phone" (JStr "N/A");
                           match_percentage := percent;
                           cand_missing_skills := missing;
                           pdf_name := filename resume_file;
                           pie_chart := generate_pie_chart_base64 percent |})
                  | _ => raise
                  end
              | _ => raise
              end
        end
  end.

(** The loop of lines 242-269: the candidates in the order of the
    uploaded files. *)
Fixpoint process_resumes (job_skills_text : string)
    (job_skills_set : gset string) (uploaded_resumes : list upload)
  : M (list candidate) :=
  match uploaded_resumes with
  | [] => ret []
  | resume_file :: rest =>
      let* c := process_resume job_skills_text job_skills_set resume_file in
      let* cs := process_resumes job_skills_text job_skills_set rest in
      ret (match c with Some c => c :: cs | None => cs end)
  end.

(** The label of a candidate in the bar chart, line 274. *)
Definition chart_name (c : candidate) : json :=
  if json_truthy (name c) then name c
  else JStr (hd EmptyString (Str.split "." (pdf_name c))).

(** [POST /analyze-recruiter], lines 227-278. *)
Definition analyze_recruiter (req : recruiter_request) : M (response ranking) :=
  match rr_resumes req, rr_job_desc req with
  | Some uploaded_resumes, Some job_desc_text =>
      let* job_skills_text := extract_skills_from_text job_desc_text in
      if negb (truthy_opt job_skills_text)
      then ret (Error 500 "Failed to extract skills from job description.")
      else
        let job_skills_text := default EmptyString job_skills_text in
        let job_skills_set := skill_set job_skills_text in
        let* cands :=
          process_resumes job_skills_text job_skills_set uploaded_resumes in
        let sorted := list_sort match_percentage true cands in
        let names := map chart_name sorted in
        let scores := map match_percentage sorted in
        ret (Ok {| candidates := sorted;
                   bar_chart := generate_bar_chart_base64 names scores |})
  | _, _ => ret (Error 400 "No resumes or job description provided.")
  end.

End Handlers.

Arguments ret {World A} a _.
Arguments raise {World A} _.
Arguments bind {World A B} m k _.
Arguments lift {World A} o _.
Arguments configure {Model} make_model GOOGLE_API_KEY.
Arguments extract_skills_from_text {Model World} generate_content gemini_model text _.
Arguments recommend_jobs_from_skills {Model World} generate_content json_loads gemini_model resume_skills _.
Arguments generate_cover_letter {Model World} generate_content gemini_model resume_skills job_desc _.
Arguments extract_name_skills_and_contact {Model World} generate_content json_loads gemini_model pdf_text _.
Arguments analyze {Model World} generate_content PdfReader json_loads gemini_model req _.
Arguments generate_cover_letter_route {Model World} generate_content gemini_model req _.
Arguments process_resume {Model World} generate_content PdfReader json_loads generate_pie_chart_base64 gemini_model job_skills_text job_skills_set resume_file _.
Arguments process_resumes {Model World} generate_content PdfReader json_loads generate_pie_chart_base64 gemini_model job_skills_text job_skills_set uploaded_resumes _.
Arguments analyze_recruiter {Model World} generate_content PdfReader json_loads generate_pie_chart_base64 generate_bar_chart_base64 gemini_model req _.

(** ** Test doubles and sample inputs *)

Module Demo.

(** A hosted model that answers by the position of the call: first the
    skills of the job description, then one reply per readable
    resume. *)
Definition replies : list string :=
  ["python, docker, aws"; "```json ann ```"; "```json bob ```"].

Definition generate_content (_ : unit) (prompt : string) (w : nat)
  : option string * nat :=
  (nth_error replies w, S w).

Definition make_model (key : string) : option unit := Some tt.

(** A PDF library that reads every non-empty file as one page holding
    the bytes of the file, and fails on the empty file. *)
Definition PdfReader (pdf_file : string) : option (list (option string)) :=
  match pdf_file with
  | EmptyString => None
  | _ => Some [Some pdf_file]
  end.

Definition json_loads (text : string) : option json :=
  if String.eqb text "ann"
  then Some (JObj [("name", JStr "Ann"); ("skills", JStr "python, aws");
                   ("email", JStr "ann@example.org")])
  else if String.eqb text "bob"
  then Some (JObj [("name", JStr "Bob"); ("skills", JStr "docker")])
  else None.

Definition generate_pie_chart_base64 (percent : Z) : string := "pie".
Definition generate_bar_chart_base64 (names : list json) (scores : list Z)
  : string := "bar".

Definition ann_pdf : upload := {| filename := "ann.pdf"; content := "Ann" |}.
Definition bob_pdf : upload := {| filename := "bob.pdf"; content := "Bob" |}.
Definition broken_pdf : upload :=
  {| filename := "broken.pdf"; content := EmptyString |}.

(** Fifty job skills, and a resume that has the first twenty-nine. *)
Definition job_50 : string :=
  "s01,s02,s03,s04,s05,s06,s07,s08,s09,s10,s11,s12,s13,s14,s15,s16,s17,s18,s19,s20,s21,s22,s23,s24,s25,s26,s27,s28,s29,s30,s31,s32,s33,s34,s35,s36,s37,s38,s39,s40,s41,s42,s43,s44,s45,s46,s47,s48,s49,s50".
Definition resume_29 : string :=
  "s01,s02,s03,s04,s05,s06,s07,s08,s09,s10,s11,s12,s13,s14,s15,s16,s17,s18,s19,s20,s21,s22,s23,s24,s25,s26,s27,s28,s29".

End Demo.

(** ** More of the program: the pie chart, malformed replies *)

(** Lines 141-148 of [generate_pie_chart_base64]: the sizes of the two
    wedges, matched first, and how far each wedge is pulled out of the
    pie, in tenths of the radius. *)
Definition pie_sizes (match_percentage : Z) : Z * Z :=
  (match_percentage, (100 - match_percentage)%Z).

Definition pie_explode (match_percentage : Z) : Z * Z :=
  if (0 <? match_percentage)%Z then (1%Z, 0%Z) else (0%Z, 1%Z).

(** Lines 139-164: [generate_pie_chart_base64] over the charting library,
    which draws, saves and encodes the pie of the given sizes. *)
Definition generate_pie_chart_base64_with
    (plt_pie : Z * Z -> Z * Z -> string) (match_percentage : Z) : string :=
  plt_pie (pie_sizes match_percentage) (pie_explode match_percentage).

(** Whether lines 252-253 run on an extracted reply without raising: the
    reply is an object and its skills, when present, are a string. *)
Definition well_formed_info (info : json) : bool :=
  match info with
  | JObj items =>
      match dict_get items "skills" (JStr EmptyString) with
      | JStr _ => true
      | _ => false
      end
  | _ => false
  end.

Module Malformed.

(** A JSON parser that reads the first reply as a list. *)
Definition json_loads (text : string) : option json :=
  if String.eqb text "ann" then Some (JArr [JStr "python"; JStr "aws"])
  else Demo.json_loads text.

End Malformed.

(** ** Facts about the string operations *)

Module StrFacts.
Import Str.

Ltac by_cases_on_char c :=
  destruct c as [[] [] [] [] [] [] [] []]; reflexivity.

Lemma lower_char_idem c : lower_char (lower_char c) = lower_char c.
Proof. by_cases_on_char c. Qed.

Lemma isspace_lower_char c : isspace (lower_char c) = isspace c.
Proof. by_cases_on_char c. Qed.

Lemma lower_char_comma c : Ascii.eqb (lower_char c) "," = Ascii.eqb c ",".
Proof. by_cases_on_char c. Qed.

Lemma lower_idem s : lower (lower s) = lower s.
Proof.
  induction s as [|c s IH]; cbn; [reflexivity|].
  now rewrite lower_char_idem, IH.
Qed.

Lemma truthy_lower s : truthy (lower s) = truthy s.
Proof. destruct s; reflexivity. Qed.

Lemma has_comma_lower s : has_char "," (lower s) = has_char "," s.
Proof.
  induction s as [|c s IH]; cbn; [reflexivity|].
  now rewrite lower_char_comma, IH.
Qed.

Lemma rstrip_cons c s :
  rstrip (String c s)
  = match rstrip s with
    | EmptyString => if isspace c then EmptyString else String c EmptyString
    | r => String c r
    end.
Proof. reflexivity. Qed.

Lemma lstrip_lower s : lstrip (lower s) = lower (lstrip s).
Proof.
  induction s as [|c s IH]; cbn; [reflexivity|].
  rewrite isspace_lower_char. destruct (isspace c); [exact IH|reflexivity].
Qed.

Lemma rstrip_lower s : rstrip (lower s) = lower (rstrip s).
Proof.
  induction s as [|c s IH]; [reflexivity|].
  cbn [lower]. rewrite !rstrip_cons, IH.
  destruct (rstrip s); cbn [lower]; [|reflexivity].
  rewrite isspace_lower_char. destruct (isspace c); reflexivity.
Qed.

Lemma strip_lower s : strip (lower s) = lower (strip s).
Proof. unfold strip. now rewrite lstrip_lower, rstrip_lower. Qed.

Lemma rstrip_idem s : rstrip (rstrip s) = rstrip s.
Proof.
  induction s as [|c s IH]; [reflexivity|].
  rewrite rstrip_cons. destruct (rstrip s) as [|a r] eqn:E.
  - destruct (isspace c) eqn:Ec; [reflexivity|].
    rewrite rstrip_cons. cbn [rstrip]. now rewrite Ec.
  - rewrite rstrip_cons, IH. reflexivity.
Qed.

Lemma lstrip_clean s : starts_clean (lstrip s) = true.
Proof.
  induction s as [|c s IH]; [reflexivity|].
  cbn [lstrip]. destruct (isspace c) eqn:Ec; [exact IH|].
  cbn. now rewrite Ec.
Qed.

Lemma lstrip_of_clean s : starts_clean s = true -> lstrip s = s.
Proof.
  destruct s as [|c s]; [reflexivity|]. cbn.
  destruct (isspace c); [discriminate|reflexivity].
Qed.

Lemma rstrip_clean s : starts_clean s = true -> starts_clean (rstrip s) = true.
Proof.
  destruct s as [|c s]; [reflexivity|]. cbn [starts_clean].
  intros Hc. rewrite rstrip_cons.
  destruct (rstrip s); [|exact Hc].
  destruct (isspace c) eqn:Ec; [discriminate|]. cbn. now rewrite Ec.
Qed.

Lemma strip_idem s : strip (strip s) = strip s.
Proof.
  unfold strip.
  rewrite (lstrip_of_clean (rstrip (lstrip s)))
    by apply rstrip_clean, lstrip_clean.
  apply rstrip_idem.
Qed.

Lemma has_char_lstrip c s : has_char c s = false -> has_char c (lstrip s) = false.
Proof.
  induction s as [|a s IH]; [reflexivity|].
  intros H. cbn [lstrip]. destruct (isspace a); [|exact H].
  cbn in H. apply orb_false_elim in H as [_ H]. auto.
Qed.

Lemma has_char_rstrip c s : has_char c s = false -> has_char c (rstrip s) = false.
Proof.
  induction s as [|a s IH]; [reflexivity|].
  intros H. cbn in H. apply orb_false_elim in H as [Ha H].
  rewrite rstrip_cons. specialize (IH H).
  destruct (rstrip s).
  - destruct (isspace a); [reflexivity|]. cbn. now rewrite Ha.
  - cbn [has_char] in *. now rewrite Ha, IH.
Qed.

Lemma has_char_strip c s : has_char c s = false -> has_char c (strip s) = false.
Proof. intros H. now apply has_char_rstrip, has_char_lstrip. Qed.

Lemma split_pieces sep s : Forall (fun u => has_char sep u = false) (split sep s).
Proof.
  induction s as [|c s IH]; cbn [split]; [now constructor|].
  destruct (Ascii.eqb c sep) eqn:Ec; [now constructor|].
  destruct (split sep s) as [|t ts].
  - constructor; [|constructor]. cbn. now rewrite Ec.
  - inversion IH as [|? ? Ht Hts]; subst.
    constructor; [|exact Hts]. cbn. now rewrite Ec, Ht.
Qed.

Lemma split_single sep t : has_char sep t = false -> split sep t = [t].
Proof.
  induction t as [|c t IH]; [reflexivity|].
  intros H. cbn in H. apply orb_false_elim in H as [Hc H].
  cbn [split]. now rewrite Hc, (IH H).
Qed.

Lemma append_nil_l (s : string) : (EmptyString ++ s)%string = s.
Proof. reflexivity. Qed.

Lemma append_cons c (s t : string) :
  (String c s ++ t)%string = String c (s ++ t)%string.
Proof. reflexivity. Qed.

Lemma split_piece sep t rest :
  has_char sep t = false ->
  split sep (t ++ String sep rest) = t :: split sep rest.
Proof.
  induction t as [|c t IH]; intros H.
  - rewrite append_nil_l. cbn [split]. now rewrite Ascii.eqb_refl.
  - cbn in H. apply orb_false_elim in H as [Hc H].
    rewrite append_cons. cbn [split]. now rewrite Hc, (IH H).
Qed.

Lemma split_join l :
  l <> [] -> Forall (fun u => has_char "," u = false) l ->
  split "," (join "," l) = l.
Proof.
  induction l as [|t l IH]; [congruence|].
  intros _ Hall. inversion Hall as [|? ? Ht Hl]; subst.
  destruct l as [|t' l].
  - cbn [join]. now apply split_single.
  - change (join "," (t :: t' :: l))
      with (t ++ String "," (join "," (t' :: l)))%string.
    rewrite split_piece by exact Ht. f_equal. now apply IH.
Qed.

Lemma lstrip_spaces s : only_chars isspace s = true -> lstrip s = EmptyString.
Proof.
  induction s as [|c s IH]; [reflexivity|].
  cbn. intros H. apply andb_prop in H as [-> H]. auto.
Qed.

Lemma strip_spaces s : only_chars isspace s = true -> strip s = EmptyString.
Proof. intros H. unfold strip. now rewrite lstrip_spaces. Qed.

Lemma split_blank s :
  blank s = true ->
  Forall (fun u => only_chars isspace u = true) (split "," s).
Proof.
  unfold blank. induction s as [|c s IH]; cbn [split only_chars].
  - repeat constructor.
  - intros H. apply andb_prop in H as [Hc H]. specialize (IH H).
    destruct (Ascii.eqb c ",") eqn:Ec; [now constructor|].
    cbn in Hc. destruct (split "," s) as [|t ts].
    + repeat constructor. cbn. now rewrite Hc.
    + inversion IH as [|? ? Ht Hts]; subst.
      constructor; [|exact Hts]. cbn. now rewrite Hc, Ht.
Qed.

End StrFacts.

(** ** Facts about the binary64 operations *)

Module FloatFacts.
Import Float.
Local Open Scope Z_scope.

Lemma digits2_bounds p :
  2 ^ (Zpos (digits2_pos p) - 1) <= Zpos p < 2 ^ Zpos (digits2_pos p).
Proof.
  induction p as [p IH|p IH|]; cbn [digits2_pos].
  - rewrite Pos2Z.inj_succ, (Pos2Z.inj_xI p).
    replace (Z.succ (Zpos (digits2_pos p)) - 1)
      with (Z.succ (Zpos (digits2_pos p) - 1)) by lia.
    rewrite !Z.pow_succ_r by lia. lia.
  - rewrite Pos2Z.inj_succ, (Pos2Z.inj_xO p).
    replace (Z.succ (Zpos (digits2_pos p)) - 1)
      with (Z.succ (Zpos (digits2_pos p) - 1)) by lia.
    rewrite !Z.pow_succ_r by lia. lia.
  - cbn. lia.
Qed.

Lemma digits2_mono p q :
  (p <= q)%positive -> Zpos (digits2_pos p) <= Zpos (digits2_pos q).
Proof.
  intros Hpq.
  destruct (digits2_bounds p) as [Hp _], (digits2_bounds q) as [_ Hq].
  assert (H : 2 ^ (Zpos (digits2_pos p) - 1) < 2 ^ Zpos (digits2_pos q)) by lia.
  apply Z.pow_lt_mono_r_iff in H; lia.
Qed.

Lemma iter_pos_nat {A} (f : A -> A) p x :
  SpecFloat.iter_pos f p x = Nat.iter (Pos.to_nat p) f x.
Proof.
  revert x. induction p as [p IH|p IH|]; intros x; cbn [SpecFloat.iter_pos].
  - rewrite !IH, Pos2Nat.inj_xI, <- Nat.iter_add, <- Nat.iter_succ_r.
    f_equal. lia.
  - rewrite !IH, Pos2Nat.inj_xO, <- Nat.iter_add. f_equal. lia.
  - reflexivity.
Qed.

Lemma shr_1_spec r :
  0 <= shr_m r ->
  shr_m (shr_1 r) = shr_m r / 2
  /\ (inexact (shr_1 r) = true -> inexact r = true \/ Z.odd (shr_m r) = true).
Proof.
  destruct r as [m rb sb]. unfold inexact. cbn [shr_m shr_r shr_s].
  intros Hm. rewrite <- Z.div2_div.
  destruct m as [|[p|p|]|]; try lia; cbn;
    destruct rb, sb; cbn; auto.
Qed.

Lemma shr_iter_spec n r :
  0 <= shr_m r ->
  let r' := Nat.iter n shr_1 r in
  0 <= shr_m r'
  /\ shr_m r' * 2 ^ Z.of_nat n <= shr_m r
  /\ (inexact r' = true ->
      shr_m r' * 2 ^ Z.of_nat n < shr_m r + (if inexact r then 1 else 0)).
Proof.
  intros Hm. induction n as [|n IH]; cbn zeta.
  - change (Nat.iter 0 shr_1 r) with r. change (2 ^ Z.of_nat 0) with 1.
    split; [lia|split; [lia|intros ->; lia]].
  - cbn zeta in IH. rewrite Nat.iter_succ.
    destruct IH as (H0 & Hle & Hlt).
    destruct (shr_1_spec (Nat.iter n shr_1 r) H0) as [Hdiv Hin].
    rewrite Hdiv, Nat2Z.inj_succ, Z.pow_succ_r by lia.
    set (m := shr_m (Nat.iter n shr_1 r)) in *.
    set (T := 2 ^ Z.of_nat n) in *.
    assert (HT : 0 < T) by (apply Z.pow_pos_nonneg; lia).
    pose proof (Z.div_mod m 2 ltac:(lia)) as Hdm.
    pose proof (Z.mod_pos_bound m 2 ltac:(lia)) as Hmod.
    split; [apply Z.div_pos; lia|].
    split; [nia|].
    intros Hi. destruct (Hin Hi) as [Hprev|Hodd].
    + specialize (Hlt Hprev). nia.
    + rewrite Zodd_mod in Hodd. apply Z.eqb_eq in Hodd.
      destruct (inexact r); nia.
Qed.

Lemma shr_spec r e n :
  0 <= shr_m r ->
  let '(r', e') := shr r e n in
  e' = e + Z.max 0 n
  /\ 0 <= shr_m r'
  /\ shr_m r' * 2 ^ (e' - e) <= shr_m r
  /\ (inexact r' = true ->
      shr_m r' * 2 ^ (e' - e) < shr_m r + (if inexact r then 1 else 0)).
Proof.
  intros Hm. destruct n as [|p|p]; cbn [shr].
  - rewrite Z.add_0_r, Z.sub_diag. change (2 ^ 0) with 1.
    split; [lia|split; [lia|split; [lia|intros ->; lia]]].
  - rewrite iter_pos_nat.
    destruct (shr_iter_spec (Pos.to_nat p) r Hm) as (H0 & Hle & Hlt).
    rewrite positive_nat_Z in Hle, Hlt.
    replace (e + Zpos p - e) with (Zpos p) by lia.
    split; [lia|split; [lia|split; [lia|exact Hlt]]].
  - replace (e + Z.max 0 (Zneg p)) with e by lia.
    rewrite Z.sub_diag. change (2 ^ 0) with 1.
    split; [lia|split; [lia|split; [lia|intros ->; lia]]].
Qed.

Lemma inexact_of_loc m l :
  shr_m (shr_record_of_loc m l) = m
  /\ (if inexact (shr_record_of_loc m l) then 1 else 0) = slack l.
Proof. destruct l as [|[]]; cbn; auto. Qed.

Lemma round_nearest_even_le r :
  round_nearest_even (shr_m r) (loc_of_shr_record r)
  <= shr_m r + (if inexact r then 1 else 0).
Proof.
  destruct r as [m [] []]; cbn; try lia.
  destruct (Z.even m); lia.
Qed.

Lemma round_nearest_even_ge r :
  shr_m r <= round_nearest_even (shr_m r) (loc_of_shr_record r).
Proof.
  destruct r as [m [] []]; cbn; try lia.
  destruct (Z.even m); lia.
Qed.

Lemma fexp_nonpos m e b :
  0 <= m -> e <= 0 -> b < 2 ^ 53 -> m <= b * 2 ^ (- e) ->
  fexp prec emax (Zdigits2 m + e) <= 0.
Proof.
  intros Hm He Hb Hle. unfold fexp, SpecFloat.emin, prec, emax.
  destruct m as [|p|p]; cbn [Zdigits2]; try lia.
  destruct (digits2_bounds p) as [Hd _].
  assert (HT : 0 < 2 ^ (- e)) by (apply Z.pow_pos_nonneg; lia).
  assert (H : 2 ^ (Zpos (digits2_pos p) - 1) < 2 ^ (53 + - e)).
  { rewrite (Z.pow_add_r 2 53 (- e)) by lia. nia. }
  apply Z.pow_lt_mono_r_iff in H; lia.
Qed.

(** Rounding is monotone at a bound [b * 2^0] with [b] below [2^53]:
    a value that is at most [b] rounds to a double that is at most [b]. *)
Lemma binary_round_aux_le mx ex lx b :
  0 <= mx -> ex <= 0 -> 0 < b < 2 ^ 53 ->
  mx + slack lx <= b * 2 ^ (- ex) ->
  binary_round_aux prec emax false mx ex lx = S754_zero false
  \/ exists m e,
      binary_round_aux prec emax false mx ex lx = S754_finite false m e
      /\ e <= 0 /\ Zpos m <= b * 2 ^ (- e).
Proof.
  intros Hmx Hex Hb Hup. unfold binary_round_aux, shr_fexp.
  destruct (inexact_of_loc mx lx) as [Hm0 Hs0].
  pose proof (shr_spec (shr_record_of_loc mx lx) ex
                (fexp prec emax (Zdigits2 mx + ex) - ex)) as H1.
  rewrite Hm0, Hs0 in H1. specialize (H1 Hmx).
  destruct (shr (shr_record_of_loc mx lx) ex
              (fexp prec emax (Zdigits2 mx + ex) - ex)) as [r1 e1].
  destruct H1 as (He1 & Hr1 & Hle1 & Hlt1).
  assert (Hfe : fexp prec emax (Zdigits2 mx + ex) <= 0).
  { apply (fexp_nonpos mx ex b); destruct lx; cbn [slack] in Hup; lia. }
  assert (He1' : e1 <= 0) by lia.
  set (rn := round_nearest_even (shr_m r1) (loc_of_shr_record r1)).
  assert (Hrn0 : 0 <= rn) by (pose proof (round_nearest_even_ge r1); lia).
  assert (Hrn : rn <= b * 2 ^ (- e1)).
  { pose proof (round_nearest_even_le r1) as Hrle. fold rn in Hrle.
    assert (HT : 0 < 2 ^ (e1 - ex)) by (apply Z.pow_pos_nonneg; lia).
    assert (HX : b * 2 ^ (- ex) = b * 2 ^ (- e1) * 2 ^ (e1 - ex)).
    { rewrite <- Z.mul_assoc, <- Z.pow_add_r by lia. do 2 f_equal. lia. }
    destruct (inexact r1).
    - specialize (Hlt1 eq_refl). nia.
    - assert (slack lx >= 0) by (destruct lx; cbn; lia). nia. }
  pose proof (shr_spec (shr_record_of_loc rn loc_Exact) e1
                (fexp prec emax (Zdigits2 rn + e1) - e1)) as H2.
  cbn [shr_record_of_loc shr_m] in H2. specialize (H2 Hrn0).
  cbn [shr_record_of_loc].
  destruct (shr {| shr_m := rn; shr_r := false; shr_s := false |} e1
              (fexp prec emax (Zdigits2 rn + e1) - e1)) as [r2 e2].
  destruct H2 as (He2 & Hr2 & Hle2 & _).
  assert (Hfe2 : fexp prec emax (Zdigits2 rn + e1) <= 0)
    by (apply (fexp_nonpos rn e1 b); lia).
  assert (He2' : e2 <= 0) by lia.
  assert (Hm2 : shr_m r2 <= b * 2 ^ (- e2)).
  { assert (HT : 0 < 2 ^ (e2 - e1)) by (apply Z.pow_pos_nonneg; lia).
    assert (HX : b * 2 ^ (- e1) = b * 2 ^ (- e2) * 2 ^ (e2 - e1)).
    { rewrite <- Z.mul_assoc, <- Z.pow_add_r by lia. do 2 f_equal. lia. }
    nia. }
  destruct (shr_m r2) as [|m|m]; [now left| |lia].
  right. exists m, e2.
  replace (e2 <=? emax - prec) with true
    by (symmetry; apply Z.leb_le; unfold emax, prec; lia).
  auto.
Qed.

Lemma slack_new_location n r :
  slack (new_location n r) = if r =? 0 then 0 else 1.
Proof.
  unfold new_location, new_location_even, new_location_odd.
  destruct (Z.even n), (r =? 0); reflexivity.
Qed.

(** The double nearest to [p / q] is at most one when [p <= q]. *)
Lemma SFdiv_le_one p q :
  (p <= q)%positive ->
  let x := SFdiv prec emax (S754_finite false p 0) (S754_finite false q 0) in
  x = S754_zero false
  \/ exists m e, x = S754_finite false m e /\ e <= 0 /\ Zpos m <= 1 * 2 ^ (- e).
Proof.
  intros Hpq. cbn zeta. unfold SFdiv, SFdiv_core_binary. cbn [Zdigits2 xorb].
  pose proof (digits2_mono p q Hpq) as Hd.
  set (e' := Z.min _ _).
  assert (He' : e' <= -53)
    by (unfold e', fexp, SpecFloat.emin, prec, emax; lia).
  destruct (0 - 0 - e') as [|s|s] eqn:Hs; try lia.
  rewrite Z.shiftl_mul_pow2 by lia.
  pose proof (Z_div_mod (Zpos p * 2 ^ Zpos s) (Zpos q) ltac:(lia)) as Hdm.
  destruct (Z.div_eucl (Zpos p * 2 ^ Zpos s) (Zpos q)) as [Q R].
  destruct Hdm as [Heq HR].
  assert (HT : 0 < 2 ^ Zpos s) by (apply Z.pow_pos_nonneg; lia).
  apply binary_round_aux_le; try lia.
  - nia.
  - rewrite slack_new_location. replace (- e') with (Zpos s) by lia.
    destruct (Z.eqb_spec R 0); nia.
Qed.

(** [n / n] is exactly [1.0]. *)
Lemma SFdiv_diag p :
  SFdiv prec emax (S754_finite false p 0) (S754_finite false p 0)
  = S754_finite false 4503599627370496 (-52).
Proof.
  unfold SFdiv, SFdiv_core_binary. cbn [Zdigits2 xorb].
  replace (Zpos (digits2_pos p) + 0 - (Zpos (digits2_pos p) + 0)) with 0 by lia.
  change (Z.min (fexp prec emax 0) (0 - 0)) with (-53).
  change (0 - 0 - -53) with 53. cbv iota.
  assert (Hdiv : Z.div_eucl (Z.shiftl (Zpos p) 53) (Zpos p) = (2 ^ 53, 0)).
  { rewrite Z.shiftl_mul_pow2 by lia.
    pose proof (Z_div_mod (Zpos p * 2 ^ 53) (Zpos p) ltac:(lia)) as Hdm.
    destruct (Z.div_eucl (Zpos p * 2 ^ 53) (Zpos p)) as [Q R].
    destruct Hdm as [Heq HR]. set (T := 2 ^ 53) in *.
    assert (HQ : Q = T) by (destruct (Z.lt_trichotomy Q T) as [|[|]]; nia).
    subst Q. f_equal. lia. }
  rewrite Hdiv.
  replace (new_location (Zpos p) 0) with loc_Exact.
  - reflexivity.
  - unfold new_location, new_location_even, new_location_odd.
    destruct (Z.even (Zpos p)); reflexivity.
Qed.

Lemma mul_int_100_le x :
  (x = S754_zero false
   \/ exists m e, x = S754_finite false m e /\ e <= 0 /\ Zpos m <= 1 * 2 ^ (- e)) ->
  mul_int x 100 = S754_zero false
  \/ exists m e,
      mul_int x 100 = S754_finite false m e /\ e <= 0 /\ Zpos m <= 100 * 2 ^ (- e).
Proof.
  unfold mul_int.
  change (of_int 100) with (S754_finite false 7036874417766400 (-46)).
  intros [->|(m & e & -> & He & Hm)]; [now left|].
  cbn [SFmul xorb]. apply binary_round_aux_le; try lia.
  cbn [slack]. rewrite Pos2Z.inj_mul, Z.add_0_r.
  replace (- (e + -46)) with (- e + 46) by lia.
  rewrite Z.pow_add_r by lia.
  assert (HT : 0 < 2 ^ (- e)) by (apply Z.pow_pos_nonneg; lia).
  change (2 ^ 46) with 70368744177664. nia.
Qed.

Lemma to_int_le x b :
  0 <= b ->
  (x = S754_zero false
   \/ exists m e, x = S754_finite false m e /\ e <= 0 /\ Zpos m <= b * 2 ^ (- e)) ->
  exists v, to_int x = Some v /\ 0 <= v <= b.
Proof.
  intros Hb [->|(m & e & -> & He & Hm)]; cbn [to_int].
  - exists 0. split; [reflexivity|lia].
  - eexists. split; [reflexivity|].
    destruct e as [|e|e]; try lia.
    + rewrite Z.shiftl_0_r. change (2 ^ (- 0)) with 1 in Hm. lia.
    + rewrite Z.shiftr_div_pow2 by lia.
      change (- Zneg e) with (Zpos e) in Hm.
      assert (HT : 0 < 2 ^ Zpos e) by (apply Z.pow_pos_nonneg; lia).
      split; [apply Z.div_pos; lia|].
      apply Z.div_le_upper_bound; lia.
Qed.

End FloatFacts.

(** ** The match score *)

Section ScoreFacts.
Import Float FloatFacts.
Local Open Scope Z_scope.

Lemma percentage_range (matched job : gset string) :
  matched ⊆ job -> job <> ∅ ->
  exists v, percentage matched job = Some v /\ 0 <= v <= 100.
Proof.
  intros Hsub Hne. unfold percentage, ratio_percent, int_truediv.
  pose proof (subseteq_size _ _ Hsub) as Hsz.
  assert (Hj : size job <> 0%nat) by (rewrite size_non_empty_iff; set_solver).
  destruct (Z.of_nat (size job)) as [|q|q] eqn:Hq; try lia.
  cbn [Z.eqb of_int_exact].
  apply (to_int_le _ 100); [lia|]. apply mul_int_100_le.
  destruct (Z.of_nat (size matched)) as [|p|p] eqn:Hp; try lia.
  - left. reflexivity.
  - cbn [of_int_exact]. apply SFdiv_le_one. lia.
Qed.

Lemma percentage_none_matched (job : gset string) :
  job <> ∅ -> percentage ∅ job = Some 0.
Proof.
  intros Hne. unfold percentage, ratio_percent, int_truediv.
  assert (Hj : size job <> 0%nat) by (rewrite size_non_empty_iff; set_solver).
  rewrite size_empty.
  destruct (Z.of_nat (size job)) as [|q|q] eqn:Hq; try lia.
  reflexivity.
Qed.

Lemma percentage_all_matched (job : gset string) :
  job <> ∅ -> percentage job job = Some 100.
Proof.
  intros Hne. unfold percentage, ratio_percent, int_truediv.
  assert (Hj : size job <> 0%nat) by (rewrite size_non_empty_iff; set_solver).
  destruct (Z.of_nat (size job)) as [|q|q] eqn:Hq; try lia.
  cbn [Z.eqb of_int_exact]. rewrite SFdiv_diag. reflexivity.
Qed.

Lemma skill_set_falsy (text : string) :
  Str.truthy text = false -> skill_set text = ∅.
Proof. destruct text; [reflexivity|discriminate]. Qed.

(** The guard of line 78 changes nothing: without it the function would
    compute the same score. *)
Lemma calculate_match_score_unguarded (resume_skills job_skills : string) :
  calculate_match_score resume_skills job_skills
  = if decide (skill_set job_skills = ∅) then Some 0
    else percentage (skill_set resume_skills ∩ skill_set job_skills)
                    (skill_set job_skills).
Proof.
  unfold calculate_match_score.
  destruct (Str.truthy resume_skills) eqn:Hr; cbn [negb orb].
  - destruct (Str.truthy job_skills) eqn:Hj; cbn [negb]; [reflexivity|].
    rewrite (skill_set_falsy _ Hj). reflexivity.
  - rewrite (skill_set_falsy _ Hr). case_decide; [reflexivity|].
    replace (∅ ∩ skill_set job_skills) with (∅ : gset string) by set_solver.
    symmetry. now apply percentage_none_matched.
Qed.

End ScoreFacts.

(** C1: for every pair of skill strings [calculate_match_score] returns
    an integer, and that integer lies between 0 and 100 inclusive. *)
Theorem calculate_match_score_range (resume_skills job_skills : string) :
  exists v : Z,
    calculate_match_score resume_skills job_skills = Some v
    /\ (0 <= v <= 100)%Z.
Proof.
  rewrite calculate_match_score_unguarded.
  case_decide as Hj.
  - exists 0%Z. split; [reflexivity|lia].
  - apply percentage_range; [set_solver|exact Hj].
Qed.

(** C3: when the skill set of either input is empty the score is 0; in
    particular whenever the job skills normalise to the empty set, whatever
    the resume skills are. *)
Theorem calculate_match_score_empty (resume_skills job_skills : string) :
  skill_set resume_skills = ∅ \/ skill_set job_skills = ∅ ->
  calculate_match_score resume_skills job_skills = Some 0%Z.
Proof.
  intros H. rewrite calculate_match_score_unguarded.
  case_decide as Hj; [reflexivity|].
  destruct H as [Hr|Hj']; [|contradiction].
  rewrite Hr.
  replace (∅ ∩ skill_set job_skills) with (∅ : gset string) by set_solver.
  now apply percentage_none_matched.
Qed.

Lemma calculate_match_score_empty_witness :
  (skill_set "python" = ∅ \/ skill_set " , ," = ∅)
  /\ calculate_match_score "python" " , ," = Some 0%Z.
Proof.
  assert (H : skill_set "python" = ∅ \/ skill_set " , ," = ∅)
    by (right; vm_compute; reflexivity).
  split; [exact H|exact (calculate_match_score_empty _ _ H)].
Defined.

(** C4: two inputs that normalise to the same non-empty set score 100. *)
Theorem calculate_match_score_same_set (A B : string) :
  skill_set A = skill_set B -> skill_set A <> ∅ ->
  calculate_match_score A B = Some 100%Z.
Proof.
  intros Heq Hne. rewrite calculate_match_score_unguarded, Heq.
  rewrite Heq in Hne. case_decide; [contradiction|].
  replace (skill_set B ∩ skill_set B) with (skill_set B) by set_solver.
  now apply percentage_all_matched.
Qed.

Lemma calculate_match_score_same_set_witness :
  skill_set "Python, SQL" = skill_set "python,sql"
  /\ skill_set "Python, SQL" <> ∅
  /\ calculate_match_score "Python, SQL" "python,sql" = Some 100%Z.
Proof.
  assert (H1 : skill_set "Python, SQL" = skill_set "python,sql")
    by (vm_compute; reflexivity).
  assert (H2 : skill_set "Python, SQL" <> ∅)
    by (vm_compute; discriminate).
  split; [exact H1|].
  split; [exact H2|exact (calculate_match_score_same_set _ _ H1 H2)].
Defined.

(** C10: on two non-empty skill strings the percentage that [analyze]
    computes in line is the value of [calculate_match_score]. *)
Theorem analyze_inline_matches_calculate (resume_skills_text job_skills_text : string) :
  Str.truthy resume_skills_text = true ->
  Str.truthy job_skills_text = true ->
  analyze_match_percentage resume_skills_text job_skills_text
  = calculate_match_score resume_skills_text job_skills_text.
Proof.
  intros Hr Hj. unfold analyze_match_percentage, calculate_match_score.
  rewrite Hr, Hj. cbn [negb orb].
  case_decide; [reflexivity|].
  f_equal. set_solver.
Qed.

Lemma analyze_inline_matches_calculate_witness :
  Str.truthy "python, aws" = true
  /\ Str.truthy "python, docker, aws" = true
  /\ analyze_match_percentage "python, aws" "python, docker, aws"
     = calculate_match_score "python, aws" "python, docker, aws".
Proof.
  split; [reflexivity|]. split; [reflexivity|].
  exact (analyze_inline_matches_calculate "python, aws" "python, docker, aws"
           eq_refl eq_refl).
Defined.

(** The inline computation and the function agree on every pair of
    strings, empty ones included. *)
Lemma analyze_match_percentage_eq (resume_skills_text job_skills_text : string) :
  analyze_match_percentage resume_skills_text job_skills_text
  = calculate_match_score resume_skills_text job_skills_text.
Proof.
  rewrite calculate_match_score_unguarded. unfold analyze_match_percentage.
  case_decide; [reflexivity|]. f_equal. set_solver.
Qed.

(** The two examples of the specification: two of three job skills
    score 66, one of three scores 33. *)
Example calculate_match_score_two_of_three :
  calculate_match_score "python, aws" "python, docker, aws" = Some 66%Z
  /\ calculate_match_score "docker" "python, docker, aws" = Some 33%Z.
Proof. split; vm_compute; reflexivity. Qed.

(** Below fifty job skills the score is the floor of the exact
    percentage; fifty is the smallest size at which it is not. *)
Lemma ratio_percent_floor_below_50 :
  floor_below 50 = true /\ floor_below 51 = false.
Proof. split; vm_compute; reflexivity. Qed.

(** On a job set of fewer than fifty skills the code computes the floor
    of the specification. *)
Lemma percentage_floor_small (matched job : gset string) :
  matched ⊆ job -> job <> ∅ -> (size job < 50)%nat ->
  percentage matched job = Some (floor_percentage matched job).
Proof.
  intros Hsub Hne Hlt. unfold percentage, floor_percentage.
  pose proof (subseteq_size _ _ Hsub) as Hsz.
  assert (Hj : size job <> 0%nat) by (rewrite size_non_empty_iff; set_solver).
  destruct ratio_percent_floor_below_50 as [Hall _].
  unfold floor_below in Hall. rewrite forallb_forall in Hall.
  specialize (Hall (size job)). rewrite forallb_forall in Hall.
  assert (Hn : In (size job) (seq 1 (50 - 1))) by (apply in_seq; lia).
  assert (Hm : In (size matched) (seq 0 (S (size job)))) by (apply in_seq; lia).
  specialize (Hall Hn (size matched) Hm).
  destruct (ratio_percent (Z.of_nat (size matched)) (Z.of_nat (size job)));
    [|discriminate].
  apply Z.eqb_eq in Hall. now subst.
Qed.

Lemma calculate_match_score_floor_small (resume_skills job_skills : string) :
  skill_set job_skills <> ∅ -> (size (skill_set job_skills) < 50)%nat ->
  calculate_match_score resume_skills job_skills
  = Some (floor_percentage (skill_set resume_skills ∩ skill_set job_skills)
                           (skill_set job_skills)).
Proof.
  intros Hne Hlt. rewrite calculate_match_score_unguarded.
  case_decide; [contradiction|].
  apply percentage_floor_small; [set_solver|assumption|assumption].
Qed.

(** C2 at fifty job skills of which the resume has twenty-nine: both sets
    are non-empty, the floor of the exact percentage is 58, and the code
    returns 57, because the two roundings of the binary64 quotient and
    product leave the product just below 58. *)
Theorem calculate_match_score_29_of_50 :
  size (skill_set Demo.job_50) = 50%nat
  /\ size (skill_set Demo.resume_29) = 29%nat
  /\ size (skill_set Demo.resume_29 ∩ skill_set Demo.job_50) = 29%nat
  /\ floor_percentage (skill_set Demo.resume_29 ∩ skill_set Demo.job_50)
       (skill_set Demo.job_50) = 58%Z
  /\ calculate_match_score Demo.resume_29 Demo.job_50 = Some 57%Z
  /\ Float.int_truediv 29 50
     = Some (S754_finite false 5224175567749775 (-53))
  /\ Float.mul_int (S754_finite false 5224175567749775 (-53)) 100
     = S754_finite false 8162774324609023 (-47).
Proof. repeat split; vm_compute; reflexivity. Qed.

(** ** Normalisation *)

Section NormalFacts.
Import Str StrFacts.

Lemma skill_tokens_normal text : Forall normal_token (skill_tokens text).
Proof.
  unfold skill_tokens.
  pose proof (split_pieces "," text) as Hp.
  induction Hp as [|u us Hu _ IH]; cbn [List.filter map]; [constructor|].
  destruct (truthy (strip u)) eqn:Ht; [|exact IH].
  cbn [map]. constructor; [|exact IH].
  repeat split.
  - rewrite has_comma_lower. now apply has_char_strip.
  - now rewrite strip_lower, strip_idem.
  - apply lower_idem.
  - now rewrite truthy_lower.
Qed.

Lemma skill_tokens_of_normal l :
  Forall normal_token l ->
  map (fun s => lower (strip s)) (List.filter (fun s => truthy (strip s)) l) = l.
Proof.
  induction 1 as [|t l (_ & Hs & Hl & Ht) _ IH]; [reflexivity|].
  cbn [List.filter]. rewrite Hs, Ht. cbn [map]. now rewrite Hs, Hl, IH.
Qed.

(** Commas and white space alone give no token, and raise nothing. *)
Lemma skill_set_blank text : blank text = true -> skill_set text = ∅.
Proof.
  intros H. unfold skill_set, skill_tokens.
  pose proof (split_blank text H) as Hp.
  induction Hp as [|u us Hu _ IH]; [reflexivity|].
  cbn [List.filter]. now rewrite (strip_spaces u Hu).
Qed.

(** The tokens of a joined list of normal tokens are that list. *)
Lemma skill_tokens_join l :
  Forall normal_token l -> skill_tokens (join "," l) = l.
Proof.
  intros Hall. destruct l as [|t l]; [reflexivity|].
  unfold skill_tokens. rewrite split_join.
  - now apply skill_tokens_of_normal.
  - discriminate.
  - eapply Forall_impl; [exact Hall|]. now intros ? (? & _).
Qed.

End NormalFacts.

(** The tokens of a listing of a normalised set are normal, so they come
    back unchanged from their comma-joined text. *)
Lemma skill_tokens_of_listing (text : string) (l : list string) :
  list_to_set l = skill_set text ->
  skill_tokens (Str.join "," l) = l.
Proof.
  intros Hl. apply skill_tokens_join, Forall_forall. intros t Ht.
  assert (Hin : t ∈ skill_tokens text).
  { apply (elem_of_list_to_set (C:=gset string)).
    fold (skill_set text). rewrite <- Hl. now apply elem_of_list_to_set. }
  pose proof (skill_tokens_normal text) as Hn.
  rewrite Forall_forall in Hn. auto.
Qed.

(** C5: normalisation is idempotent.  Whatever order (and repetition) the
    tokens of a normalised set are listed in, splitting, trimming,
    lower-casing and collecting their comma-joined text gives the same
    set again. *)
Theorem skill_set_idempotent (text : string) (l : list string) :
  list_to_set l = skill_set text ->
  skill_set (Str.join "," l) = skill_set text.
Proof.
  intros Hl. unfold skill_set at 1.
  now rewrite (skill_tokens_of_listing text l Hl).
Qed.

(** The same with the order in which [elements] lists the set. *)
Corollary skill_set_idempotent_elements (text : string) :
  skill_set (Str.join "," (elements (skill_set text))) = skill_set text.
Proof.
  unfold skill_set at 1.
  rewrite (skill_tokens_of_listing text); apply list_to_set_elements_L.
Qed.

Lemma skill_set_idempotent_witness :
  list_to_set ["sql"; "python"; "sql"] = skill_set " Python, SQL ,,python"
  /\ skill_set (Str.join "," ["sql"; "python"; "sql"])
     = skill_set " Python, SQL ,,python".
Proof.
  assert (H : list_to_set ["sql"; "python"; "sql"]
              = skill_set " Python, SQL ,,python")
    by (vm_compute; reflexivity).
  split; [exact H|exact (skill_set_idempotent _ _ H)].
Defined.

(** ** The ranking *)

Section SortFacts.
Context {A : Type} (key : A -> Z).
Local Open Scope Z_scope.

Lemma insert_sorted_perm x l : insert_sorted key x l ≡ₚ x :: l.
Proof.
  induction l as [|y l IH]; cbn [insert_sorted]; [reflexivity|].
  destruct (key y <? key x); [|reflexivity].
  rewrite IH. apply Permutation_swap.
Qed.

Lemma stable_sort_perm l : stable_sort key l ≡ₚ l.
Proof.
  induction l as [|x l IH]; [reflexivity|].
  cbn. rewrite insert_sorted_perm. now constructor.
Qed.

Lemma insert_sorted_sorted x l :
  StronglySorted (fun a b => key a <= key b) l ->
  StronglySorted (fun a b => key a <= key b) (insert_sorted key x l).
Proof.
  induction 1 as [|y l Hs IH Hall]; cbn [insert_sorted].
  - repeat constructor.
  - destruct (Z.ltb_spec (key y) (key x)) as [Hlt|Hge].
    + constructor; [exact IH|].
      rewrite insert_sorted_perm. constructor; [lia|exact Hall].
    + constructor; [now constructor|].
      constructor; [exact Hge|].
      eapply Forall_impl; [exact Hall|]. cbn. intros; lia.
Qed.

Lemma stable_sort_sorted l :
  StronglySorted (fun a b => key a <= key b) (stable_sort key l).
Proof.
  induction l as [|x l IH]; [constructor|].
  cbn. now apply insert_sorted_sorted.
Qed.

(** Insertion never moves an element past one of the same key. *)
Lemma insert_sorted_filter v x l :
  List.filter (fun c => key c =? v) (insert_sorted key x l)
  = List.filter (fun c => key c =? v) (x :: l).
Proof.
  induction l as [|y l IH]; [reflexivity|].
  cbn [insert_sorted].
  destruct (Z.ltb_spec (key y) (key x)) as [Hlt|Hge]; [|reflexivity].
  cbn [List.filter] in *. rewrite IH.
  destruct (Z.eqb_spec (key x) v), (Z.eqb_spec (key y) v);
    try reflexivity; lia.
Qed.

Lemma stable_sort_filter v l :
  List.filter (fun c => key c =? v) (stable_sort key l)
  = List.filter (fun c => key c =? v) l.
Proof.
  induction l as [|x l IH]; [reflexivity|].
  change (stable_sort key (x :: l))
    with (insert_sorted key x (stable_sort key l)).
  rewrite insert_sorted_filter. cbn [List.filter]. now rewrite IH.
Qed.

Lemma StronglySorted_rev (R : A -> A -> Prop) l :
  StronglySorted R l -> StronglySorted (fun a b => R b a) (rev l).
Proof.
  induction 1 as [|x l Hs IH Hall]; [constructor|].
  cbn [rev]. apply StronglySorted_app.
  split; [|split; [exact IH|repeat constructor]].
  intros a b Ha Hb. apply list_elem_of_singleton in Hb as ->.
  rewrite Forall_forall in Hall. apply Hall.
  apply list_elem_of_In, in_rev, list_elem_of_In. exact Ha.
Qed.

Lemma list_sort_reverse_sorted l :
  StronglySorted (fun a b => key b <= key a) (list_sort key true l).
Proof. cbn [list_sort]. apply StronglySorted_rev, stable_sort_sorted. Qed.

Lemma list_sort_reverse_perm l : list_sort key true l ≡ₚ l.
Proof.
  cbn [list_sort].
  now rewrite <- Permutation_rev, stable_sort_perm, <- Permutation_rev.
Qed.

Lemma list_sort_reverse_filter v l :
  List.filter (fun c => key c =? v) (list_sort key true l)
  = List.filter (fun c => key c =? v) l.
Proof.
  cbn [list_sort].
  now rewrite List.filter_rev, stable_sort_filter, List.filter_rev,
    rev_involutive.
Qed.
End SortFacts.

(** ** The handlers *)

Section HandlerFacts.
Context {Model World : Type}.
Variable make_model : string -> option Model.
Variable generate_content : Model -> string -> World -> option string * World.
Variable PdfReader : string -> option (list (option string)).
Variable json_loads : string -> option json.
Variable generate_pie_chart_base64 : Z -> string.
Variable generate_bar_chart_base64 : list json -> list Z -> string.
Variable gemini_model : option Model.

Local Abbreviation analyze' :=
  (analyze generate_content PdfReader json_loads gemini_model).
Local Abbreviation process_resume' :=
  (process_resume generate_content PdfReader json_loads
     generate_pie_chart_base64 gemini_model).
Local Abbreviation process_resumes' :=
  (process_resumes generate_content PdfReader json_loads
     generate_pie_chart_base64 gemini_model).
Local Abbreviation analyze_recruiter' :=
  (analyze_recruiter generate_content PdfReader json_loads
     generate_pie_chart_base64 generate_bar_chart_base64 gemini_model).

Ltac split_matches :=
  repeat match goal with
         | H : context [match ?x with _ => _ end] |- _ => destruct x eqn:?
         end;
  try discriminate.

(** What a successful [analyze] answers. *)
Lemma analyze_ok req w body w' :
  analyze' req w = (Some (Ok body), w') ->
  an_missing_skills body
  = missing_skills (skill_set (an_resume_skills body))
                   (skill_set (an_job_skills body))
  /\ analyze_match_percentage (an_resume_skills body) (an_job_skills body)
     = Some (an_match_percentage body).
Proof.
  unfold analyze, bind, ret, lift, raise. intros H.
  split_matches. unfold ret in *. simplify_eq. split; [reflexivity|assumption].
Qed.

(** What a file that yields a candidate contributes. *)
Lemma process_resume_some job_skills_text f w c w' :
  process_resume' job_skills_text (skill_set job_skills_text) f w
  = (Some (Some c), w') ->
  exists resume_skills_text,
    cand_missing_skills c
    = missing_skills (skill_set resume_skills_text) (skill_set job_skills_text)
    /\ calculate_match_score resume_skills_text job_skills_text
       = Some (match_percentage c)
    /\ pdf_name c = filename f.
Proof.
  unfold process_resume, bind, ret, lift, raise. intros H.
  split_matches. unfold ret in *. simplify_eq. cbn [cand_missing_skills match_percentage pdf_name]. eauto.
Qed.

(** The candidates of a successful [analyze_recruiter] are the
    candidates of the loop, sorted by line 271. *)
Lemma analyze_recruiter_ok req w body w' :
  analyze_recruiter' req w = (Some (Ok body), w') ->
  exists uploaded_resumes job_skills_text w1 cands,
    rr_resumes req = Some uploaded_resumes
    /\ process_resumes' job_skills_text (skill_set job_skills_text)
         uploaded_resumes w1 = (Some cands, w')
    /\ candidates body = list_sort match_percentage true cands.
Proof.
  unfold analyze_recruiter, bind, ret. intros H.
  split_matches. unfold ret in *. simplify_eq. cbn [candidates]. eauto 10.
Qed.

Lemma missing_skills_spec (resume_set job_set : gset string) :
list_to_set (missing_skills resume_set job_set) = job_set ∖ resume_set
/\ NoDup (missing_skills resume_set job_set).
Proof.
unfold missing_skills. split.
- apply list_to_set_elements_L.
- apply NoDup_elements.
Qed.

(** C6: the missing skills are, as a set, the job skills without the
  resume skills: for any two skill strings, for the job "python,sql" and
  the resume "python" (exactly "sql"), in the answer of [analyze] and in
  every candidate of the recruiter loop. *)
Theorem missing_skills_is_set_difference :
(forall resume_skills job_skills : string,
    let missing :=
      missing_skills (skill_set resume_skills) (skill_set job_skills) in
    list_to_set missing = skill_set job_skills ∖ skill_set resume_skills
    /\ NoDup missing)
/\ missing_skills (skill_set "python") (skill_set "python,sql") = ["sql"]
/\ (forall req w,
      match fst (analyze' req w) with
      | Some (Ok body) =>
          list_to_set (an_missing_skills body)
          = skill_set (an_job_skills body) ∖ skill_set (an_resume_skills body)
      | _ => True
      end)
/\ (forall job_skills_text f w,
      match fst (process_resume' job_skills_text
                   (skill_set job_skills_text) f w) with
      | Some (Some c) =>
          exists resume_skills_text,
            list_to_set (cand_missing_skills c)
            = skill_set job_skills_text ∖ skill_set resume_skills_text
            /\ calculate_match_score resume_skills_text job_skills_text
               = Some (match_percentage c)
      | _ => True
      end).
Proof.
split; [intros; apply missing_skills_spec|].
split; [vm_compute; reflexivity|].
split.
- intros req w.
  destruct (analyze' req w) as [[[body|]|] w'] eqn:E; cbn [fst]; auto.
  destruct (analyze_ok _ _ _ _ E) as [-> _]. apply missing_skills_spec.
- intros jt f w.
  destruct (process_resume' jt (skill_set jt) f w) as [[[c|]|] w'] eqn:E;
    cbn [fst]; auto.
  destruct (process_resume_some _ _ _ _ _ E) as (rt & -> & Hs & _).
  exists rt. split; [apply missing_skills_spec|exact Hs].
Qed.

(** C7: the candidates are returned in descending order of match
  percentage, and candidates with the same percentage keep the order in
  which the loop produced them; the list that [analyze_recruiter]
  answers is the list of the loop sorted in this way. *)
Theorem recruiter_ranking_sorted_stable :
(forall cands : list candidate,
    let ranked := list_sort match_percentage true cands in
    StronglySorted
      (fun a b => (match_percentage b <= match_percentage a)%Z) ranked
    /\ ranked ≡ₚ cands
    /\ forall v : Z,
        List.filter (fun c => (match_percentage c =? v)%Z) ranked
        = List.filter (fun c => (match_percentage c =? v)%Z) cands)
/\ (forall req w,
      match analyze_recruiter' req w with
      | (Some (Ok body), w') =>
          exists uploaded_resumes job_skills_text w1 cands,
            rr_resumes req = Some uploaded_resumes
            /\ process_resumes' job_skills_text (skill_set job_skills_text)
                 uploaded_resumes w1 = (Some cands, w')
            /\ candidates body = list_sort match_percentage true cands
      | _ => True
      end).
Proof.
split.
- intros cands. cbn zeta. split; [apply list_sort_reverse_sorted|].
  split; [apply list_sort_reverse_perm|].
  intros v. apply list_sort_reverse_filter.
- intros req w.
  destruct (analyze_recruiter' req w) as [[[body|]|] w'] eqn:E; auto.
  now apply analyze_recruiter_ok in E.
Qed.

Lemma process_resume_unreadable job_skills_text job_skills_set f w :
truthy_opt (extract_text_from_pdf PdfReader (content f)) = false ->
process_resume' job_skills_text job_skills_set f w = (Some None, w).
Proof.
unfold process_resume, truthy_opt. intros H.
destruct (extract_text_from_pdf PdfReader (content f)); [|reflexivity].
now rewrite H.
Qed.

Lemma process_resumes_unreadable job_skills_text job_skills_set f before after w :
truthy_opt (extract_text_from_pdf PdfReader (content f)) = false ->
process_resumes' job_skills_text job_skills_set (before ++ f :: after) w
= process_resumes' job_skills_text job_skills_set (before ++ after) w.
Proof.
intros H. revert w. induction before as [|b before IH]; intros w.
- cbn [app process_resumes]. unfold bind at 1.
  rewrite (process_resume_unreadable _ _ _ _ H). unfold bind, ret.
  now destruct (process_resumes' job_skills_text job_skills_set after w)
    as [[cs|] w'].
- cbn [app process_resumes]. unfold bind at 1 3.
  destruct (process_resume' job_skills_text job_skills_set b w) as [[c|] w1];
    [|reflexivity].
  unfold bind. now rewrite IH.
Qed.

(** C8: in recruiter mode a file whose text extraction yields nothing is
  skipped: it raises nothing, calls no collaborator, adds no candidate,
  and the loop and the whole request go on as if the file had not been
  uploaded. *)
Theorem recruiter_skips_unreadable_file
  (f : upload) (before after : list upload) (job_desc : option string)
  (job_skills_text : string) (job_skills_set : gset string) (w : World) :
truthy_opt (extract_text_from_pdf PdfReader (content f)) = false ->
process_resume' job_skills_text job_skills_set f w = (Some None, w)
/\ process_resumes' job_skills_text job_skills_set (before ++ f :: after) w
   = process_resumes' job_skills_text job_skills_set (before ++ after) w
/\ analyze_recruiter'
     {| rr_resumes := Some (before ++ f :: after)%list;
        rr_job_desc := job_desc |} w
   = analyze_recruiter'
       {| rr_resumes := Some (before ++ after)%list;
          rr_job_desc := job_desc |} w.
Proof.
intros H.
split; [now apply process_resume_unreadable|].
split; [now apply process_resumes_unreadable|].
unfold analyze_recruiter. cbn [rr_resumes rr_job_desc].
destruct job_desc as [jd|]; [|reflexivity].
unfold bind at 1 3.
destruct (extract_skills_from_text generate_content gemini_model jd w)
  as [[jt|] w1]; [|reflexivity].
destruct (negb (truthy_opt jt)); [reflexivity|].
unfold bind. now rewrite process_resumes_unreadable.
Qed.

End HandlerFacts.

Lemma recruiter_skips_unreadable_file_witness :
  truthy_opt (extract_text_from_pdf Demo.PdfReader (content Demo.broken_pdf))
  = false
  /\ process_resume Demo.generate_content Demo.PdfReader Demo.json_loads
       Demo.generate_pie_chart_base64 (Some tt) "python, docker, aws"
       (skill_set "python, docker, aws") Demo.broken_pdf 1%nat
     = (Some None, 1%nat)
  /\ process_resumes Demo.generate_content Demo.PdfReader Demo.json_loads
       Demo.generate_pie_chart_base64 (Some tt) "python, docker, aws"
       (skill_set "python, docker, aws")
       ([Demo.ann_pdf] ++ Demo.broken_pdf :: [Demo.bob_pdf]) 1%nat
     = process_resumes Demo.generate_content Demo.PdfReader Demo.json_loads
         Demo.generate_pie_chart_base64 (Some tt) "python, docker, aws"
         (skill_set "python, docker, aws")
         ([Demo.ann_pdf] ++ [Demo.bob_pdf]) 1%nat
  /\ analyze_recruiter Demo.generate_content Demo.PdfReader Demo.json_loads
       Demo.generate_pie_chart_base64 Demo.generate_bar_chart_base64 (Some tt)
       {| rr_resumes := Some ([Demo.ann_pdf] ++ Demo.broken_pdf :: [Demo.bob_pdf])%list;
          rr_job_desc := Some "python developer" |} 1%nat
     = analyze_recruiter Demo.generate_content Demo.PdfReader Demo.json_loads
         Demo.generate_pie_chart_base64 Demo.generate_bar_chart_base64 (Some tt)
         {| rr_resumes := Some ([Demo.ann_pdf] ++ [Demo.bob_pdf])%list;
            rr_job_desc := Some "python developer" |} 1%nat.
Proof.
  split; [reflexivity|].
  exact (recruiter_skips_unreadable_file Demo.generate_content Demo.PdfReader
           Demo.json_loads Demo.generate_pie_chart_base64
           Demo.generate_bar_chart_base64 (Some tt) Demo.broken_pdf
           [Demo.ann_pdf] [Demo.bob_pdf] (Some "python developer")
           "python, docker, aws" (skill_set "python, docker, aws") 1%nat
           eq_refl).
Defined.

(** The end-to-end example of the specification: the job asks for python,
    docker and aws, the first resume has python and aws, the second has
    docker, and a file that cannot be read lies between them. *)
Example analyze_recruiter_end_to_end :
  analyze_recruiter Demo.generate_content Demo.PdfReader Demo.json_loads
    Demo.generate_pie_chart_base64 Demo.generate_bar_chart_base64 (Some tt)
    {| rr_resumes := Some [Demo.ann_pdf; Demo.broken_pdf; Demo.bob_pdf];
       rr_job_desc := Some "python developer" |} 0%nat
  = (Some (Ok
       {| candidates :=
            [ {| name := JStr "Ann"; email := JStr "ann@example.org";
                 phone := JStr "N/A"; match_percentage := 66;
                 cand_missing_skills := ["docker"]; pdf_name := "ann.pdf";
                 pie_chart := "pie" |};
              {| name := JStr "Bob"; email := JStr "N/A";
                 phone := JStr "N/A"; match_percentage := 33;
                 cand_missing_skills := ["aws"; "python"];
                 pdf_name := "bob.pdf"; pie_chart := "pie" |} ];
          bar_chart := "bar" |}), 3%nat).
Proof. vm_compute. reflexivity. Qed.

Section NoCredential.
Context {Model World : Type}.
Variable make_model : string -> option Model.
Variable generate_content : Model -> string -> World -> option string * World.
Variable PdfReader : string -> option (list (option string)).
Variable json_loads : string -> option json.
Variable generate_pie_chart_base64 : Z -> string.
Variable generate_bar_chart_base64 : list json -> list Z -> string.

(** C9: without a credential the model client is [None], and then nothing
    that depends on the model raises: the three extraction functions
    return [None], the cover letter is the local "unavailable" text, and
    the endpoints answer an error (or that text) without calling the
    model. *)
Theorem missing_credential_degrades :
  configure make_model None = None
  /\ configure make_model (Some EmptyString) = None
  /\ (forall text (w : World),
        extract_skills_from_text generate_content None text w = (Some None, w))
  /\ (forall skills (w : World),
        recommend_jobs_from_skills generate_content json_loads None skills w
        = (Some None, w))
  /\ (forall pdf_text (w : World),
        extract_name_skills_and_contact generate_content json_loads None pdf_text w
        = (Some None, w))
  /\ (forall skills job_desc (w : World),
        generate_cover_letter generate_content None skills job_desc w
        = (Some "Cover letter generation is currently unavailable. Please check your API key.",
           w))
  /\ (forall req (w : World),
        exists status message,
          analyze generate_content PdfReader json_loads None req w
          = (Some (Error status message), w))
  /\ (forall req (w : World),
        exists status message,
          analyze_recruiter generate_content PdfReader json_loads
            generate_pie_chart_base64 generate_bar_chart_base64 None req w
          = (Some (Error status message), w))
  /\ (forall req (w : World),
        exists r,
          generate_cover_letter_route generate_content None req w = (Some r, w)
          /\ (r = Ok cover_letter_unavailable
              \/ exists message, r = Error 400 message)).
Proof.
  repeat split; try reflexivity.
  - intros req w. unfold analyze.
    destruct (ar_resume req), (ar_job_desc req); try (eexists _, _; reflexivity).
    destruct (extract_text_from_pdf PdfReader s) as [t|];
      try (eexists _, _; reflexivity).
    destruct (negb (Str.truthy t)); eexists _, _; reflexivity.
  - intros req w. unfold analyze_recruiter.
    destruct (rr_resumes req), (rr_job_desc req); eexists _, _; reflexivity.
  - intros req w. unfold generate_cover_letter_route.
    destruct (cl_resume_skills req) as [s|], (cl_job_desc req) as [j|];
      try (eexists; split; [reflexivity|right; eexists; reflexivity]).
    destruct (negb (Str.truthy s) || negb (Str.truthy j)).
    + eexists; split; [reflexivity|right; eexists; reflexivity].
    + eexists; split; [reflexivity|left; reflexivity].
Qed.

End NoCredential.

(** ** How far the score is from the exact percentage *)

Module FloatBounds.
Import Float FloatFacts.
Local Open Scope Z_scope.

Lemma shr_m_iter n r :
  0 <= shr_m r -> shr_m (Nat.iter n shr_1 r) = shr_m r / 2 ^ Z.of_nat n.
Proof.
  intros Hm. induction n as [|n IH].
  - change (Nat.iter 0 shr_1 r) with r. change (2 ^ Z.of_nat 0) with 1.
    now rewrite Z.div_1_r.
  - rewrite Nat.iter_succ.
    assert (H0 : 0 <= shr_m (Nat.iter n shr_1 r))
      by (rewrite IH; apply Z.div_pos; [lia|apply Z.pow_pos_nonneg; lia]).
    destruct (shr_1_spec _ H0) as [-> _].
    rewrite IH, Nat2Z.inj_succ, Z.pow_succ_r, Z.div_div by lia.
    f_equal. lia.
Qed.

Lemma shr_floor r e n :
  0 <= shr_m r ->
  shr_m (fst (shr r e n)) = shr_m r / 2 ^ (snd (shr r e n) - e).
Proof.
  intros Hm. destruct n as [|p|p]; cbn [shr fst snd].
  - rewrite Z.sub_diag. change (2 ^ 0) with 1. now rewrite Z.div_1_r.
  - rewrite iter_pos_nat, shr_m_iter, positive_nat_Z by exact Hm.
    do 2 f_equal. lia.
  - rewrite Z.sub_diag. change (2 ^ 0) with 1. now rewrite Z.div_1_r.
Qed.

Lemma fexp_le m e b k :
  0 <= m -> e <= k -> -1074 <= k -> b < 2 ^ 53 -> m <= b * 2 ^ (k - e) ->
  fexp prec emax (Zdigits2 m + e) <= k.
Proof.
  intros Hm He Hk Hb Hle. unfold fexp, SpecFloat.emin, prec, emax.
  destruct m as [|p|p]; cbn [Zdigits2]; try lia.
  destruct (digits2_bounds p) as [Hd _].
  assert (HT : 0 < 2 ^ (k - e)) by (apply Z.pow_pos_nonneg; lia).
  assert (H : 2 ^ (Zpos (digits2_pos p) - 1) < 2 ^ (53 + (k - e))).
  { rewrite (Z.pow_add_r 2 53 (k - e)) by lia. nia. }
  apply Z.pow_lt_mono_r_iff in H; lia.
Qed.

Lemma pow2_split (b k e1 e2 : Z) :
  e2 <= e1 -> e1 <= k ->
  b * 2 ^ (k - e2) = b * 2 ^ (k - e1) * 2 ^ (e1 - e2).
Proof.
  intros H1 H2. rewrite <- Z.mul_assoc, <- Z.pow_add_r by lia.
  do 2 f_equal. lia.
Qed.

(** Rounding keeps a value between two bounds [lo * 2^k] and [hi * 2^k]
    whose mantissas fit the format. *)
Lemma binary_round_aux_between mx ex lx lo hi k :
  0 <= mx -> ex <= k -> -1074 <= k <= 971 ->
  0 <= lo -> 0 < hi < 2 ^ 53 ->
  lo * 2 ^ (k - ex) <= mx ->
  mx + slack lx <= hi * 2 ^ (k - ex) ->
  (binary_round_aux prec emax false mx ex lx = S754_zero false /\ lo = 0)
  \/ exists m e,
      binary_round_aux prec emax false mx ex lx = S754_finite false m e
      /\ e <= k /\ lo * 2 ^ (k - e) <= Zpos m <= hi * 2 ^ (k - e).
Proof.
  intros Hmx Hex Hk Hlo Hhi Hlow Hup. unfold binary_round_aux, shr_fexp.
  assert (Hsl : 0 <= slack lx) by (destruct lx; cbn; lia).
  destruct (inexact_of_loc mx lx) as [Hm0 Hs0].
  pose proof (shr_spec (shr_record_of_loc mx lx) ex
                (fexp prec emax (Zdigits2 mx + ex) - ex)) as H1.
  pose proof (shr_floor (shr_record_of_loc mx lx) ex
                (fexp prec emax (Zdigits2 mx + ex) - ex)) as F1.
  rewrite Hm0 in H1, F1. rewrite Hs0 in H1.
  specialize (H1 Hmx). specialize (F1 Hmx).
  destruct (shr (shr_record_of_loc mx lx) ex
              (fexp prec emax (Zdigits2 mx + ex) - ex)) as [r1 e1].
  cbn [fst snd] in F1.
  destruct H1 as (He1 & Hr1 & Hle1 & Hlt1).
  assert (Hfe : fexp prec emax (Zdigits2 mx + ex) <= k)
    by (apply (fexp_le mx ex hi k); lia).
  assert (He1' : e1 <= k) by lia.
  assert (HT1 : 0 < 2 ^ (e1 - ex)) by (apply Z.pow_pos_nonneg; lia).
  set (rn := round_nearest_even (shr_m r1) (loc_of_shr_record r1)).
  pose proof (round_nearest_even_ge r1) as Hrge. fold rn in Hrge.
  pose proof (round_nearest_even_le r1) as Hrle. fold rn in Hrle.
  assert (Hrn0 : 0 <= rn) by lia.
  assert (Hrn_hi : rn <= hi * 2 ^ (k - e1)).
  { pose proof (pow2_split hi k e1 ex ltac:(lia) He1') as HX.
    destruct (inexact r1).
    - specialize (Hlt1 eq_refl). nia.
    - nia. }
  assert (Hrn_lo : lo * 2 ^ (k - e1) <= rn).
  { pose proof (pow2_split lo k e1 ex ltac:(lia) He1') as HX.
    assert (lo * 2 ^ (k - e1) <= shr_m r1); [|lia].
    rewrite F1. apply Z.div_le_lower_bound; [exact HT1|]. lia. }
  pose proof (shr_spec (shr_record_of_loc rn loc_Exact) e1
                (fexp prec emax (Zdigits2 rn + e1) - e1)) as H2.
  pose proof (shr_floor (shr_record_of_loc rn loc_Exact) e1
                (fexp prec emax (Zdigits2 rn + e1) - e1)) as F2.
  cbn [shr_record_of_loc shr_m] in H2, F2.
  specialize (H2 Hrn0). specialize (F2 Hrn0).
  cbn [shr_record_of_loc].
  destruct (shr {| shr_m := rn; shr_r := false; shr_s := false |} e1
              (fexp prec emax (Zdigits2 rn + e1) - e1)) as [r2 e2].
  cbn [fst snd] in F2.
  destruct H2 as (He2 & Hr2 & Hle2 & _).
  assert (Hfe2 : fexp prec emax (Zdigits2 rn + e1) <= k)
    by (apply (fexp_le rn e1 hi k); lia).
  assert (He2' : e2 <= k) by lia.
  assert (HT2 : 0 < 2 ^ (e2 - e1)) by (apply Z.pow_pos_nonneg; lia).
  assert (HP2 : 0 < 2 ^ (k - e2)) by (apply Z.pow_pos_nonneg; lia).
  assert (Hm2_hi : shr_m r2 <= hi * 2 ^ (k - e2)).
  { pose proof (pow2_split hi k e2 e1 ltac:(lia) He2') as HX. nia. }
  assert (Hm2_lo : lo * 2 ^ (k - e2) <= shr_m r2).
  { pose proof (pow2_split lo k e2 e1 ltac:(lia) He2') as HX.
    rewrite F2. apply Z.div_le_lower_bound; [exact HT2|]. lia. }
  destruct (shr_m r2) as [|m|m]; [left; split; [reflexivity|nia]| |lia].
  right. exists m, e2.
  replace (e2 <=? emax - prec) with true
    by (symmetry; apply Z.leb_le; unfold emax, prec; lia).
  auto.
Qed.

End FloatBounds.

Module ScoreRounding.
Import Float FloatFacts FloatBounds.
Local Open Scope Z_scope.

(** The double nearest to [p / q] lies between any two bounds
    [lo * 2^-52 <= p / q <= hi * 2^-52]. *)
Lemma SFdiv_between p q lo hi :
  (p <= q)%positive -> 0 <= lo -> 0 < hi < 2 ^ 53 ->
  lo * Zpos q <= Zpos p * 2 ^ 52 <= hi * Zpos q ->
  let x := SFdiv prec emax (S754_finite false p 0) (S754_finite false q 0) in
  (x = S754_zero false /\ lo = 0)
  \/ exists m e, x = S754_finite false m e /\ e <= -52
       /\ lo * 2 ^ (-52 - e) <= Zpos m <= hi * 2 ^ (-52 - e).
Proof.
  intros Hpq Hlo Hhi [Hl Hh]. cbn zeta.
  unfold SFdiv, SFdiv_core_binary. cbn [Zdigits2 xorb].
  pose proof (digits2_mono p q Hpq) as Hd.
  set (e' := Z.min _ _).
  assert (He' : e' <= -53)
    by (unfold e', fexp, SpecFloat.emin, prec, emax; lia).
  assert (He'' : -1074 <= e')
    by (unfold e', fexp, SpecFloat.emin, prec, emax; lia).
  destruct (0 - 0 - e') as [|s|s] eqn:Hs; try lia.
  rewrite Z.shiftl_mul_pow2 by lia.
  pose proof (Z_div_mod (Zpos p * 2 ^ Zpos s) (Zpos q) ltac:(lia)) as Hdm.
  destruct (Z.div_eucl (Zpos p * 2 ^ Zpos s) (Zpos q)) as [Q R].
  destruct Hdm as [Heq HR].
  assert (HT : 0 < 2 ^ (-52 - e')) by (apply Z.pow_pos_nonneg; lia).
  assert (HS : 2 ^ Zpos s = 2 ^ 52 * 2 ^ (-52 - e')).
  { rewrite <- Z.pow_add_r by lia. f_equal. lia. }
  rewrite HS in Heq. set (T := 2 ^ (-52 - e')) in *.
  apply binary_round_aux_between; try lia.
  - nia.
  - nia.
  - rewrite slack_new_location. destruct (Z.eqb_spec R 0); nia.
Qed.

(** The product with [100.0] of a double between [lo * 2^-52] and
    [hi * 2^-52] lies between [lo2 * 2^-46] and [hi2 * 2^-46] when these
    bounds enclose a hundred times the former. *)
Lemma mul_int_100_between x lo hi lo2 hi2 :
  0 <= lo2 -> 0 < hi2 < 2 ^ 53 ->
  lo2 * 2 ^ 6 <= 100 * lo -> 100 * hi <= hi2 * 2 ^ 6 ->
  ((x = S754_zero false /\ lo = 0)
   \/ exists m e, x = S754_finite false m e /\ e <= -52
        /\ lo * 2 ^ (-52 - e) <= Zpos m <= hi * 2 ^ (-52 - e)) ->
  (mul_int x 100 = S754_zero false /\ lo2 = 0)
  \/ exists m e, mul_int x 100 = S754_finite false m e /\ e <= -46
       /\ lo2 * 2 ^ (-46 - e) <= Zpos m <= hi2 * 2 ^ (-46 - e).
Proof.
  intros Hlo2 Hhi2 Hl Hh. unfold mul_int.
  change (of_int 100) with (S754_finite false 7036874417766400 (-46)).
  intros [[-> ->]|(m & e & -> & He & Hm)].
  - left. split; [reflexivity|lia].
  - cbn [SFmul xorb].
    assert (HU : 0 < 2 ^ (-52 - e)) by (apply Z.pow_pos_nonneg; lia).
    assert (HX : 2 ^ (-46 - (e + -46)) = 2 ^ 52 * 2 ^ (-52 - e)).
    { rewrite <- Z.pow_add_r by lia. f_equal. lia. }
    apply binary_round_aux_between; try lia.
    + rewrite HX, Pos2Z.inj_mul. set (U := 2 ^ (-52 - e)) in *. nia.
    + cbn [slack]. rewrite HX, Pos2Z.inj_mul, Z.add_0_r.
      set (U := 2 ^ (-52 - e)) in *. nia.
Qed.

(** Truncation of a double between [L] and just below [H]. *)
Lemma to_int_between x L H :
  0 <= L -> L < H ->
  ((x = S754_zero false /\ L * 2 ^ 46 = 0)
   \/ exists m e, x = S754_finite false m e /\ e <= -46
        /\ L * 2 ^ 46 * 2 ^ (-46 - e) <= Zpos m
           <= (H * 2 ^ 46 - 1) * 2 ^ (-46 - e)) ->
  exists v, to_int x = Some v /\ L <= v < H.
Proof.
  intros HL HLH [[-> H0]|(m & e & -> & He & Hm)]; cbn [to_int].
  - exists 0. split; [reflexivity|lia].
  - eexists. split; [reflexivity|].
    destruct e as [|e|e]; try lia.
    rewrite Z.shiftr_div_pow2 by lia.
    assert (HU : 0 < 2 ^ (-46 - Zneg e)) by (apply Z.pow_pos_nonneg; lia).
    assert (HX : 2 ^ Zpos e = 2 ^ 46 * 2 ^ (-46 - Zneg e)).
    { rewrite <- Z.pow_add_r by lia. f_equal. lia. }
    rewrite HX. set (U := 2 ^ (-46 - Zneg e)) in *.
    split.
    + apply Z.div_le_lower_bound; nia.
    + apply Z.div_lt_upper_bound; nia.
Qed.

(** The score on [p] matched of [q] job skills, between two integers that
    enclose the exact percentage with the room the two roundings need. *)
Lemma ratio_percent_between p q L H :
  (p <= q)%positive -> 0 <= L -> L < H -> H <= 101 ->
  (L * 2 ^ 52 + 99) / 100 * Zpos q <= Zpos p * 2 ^ 52 ->
  Zpos p * 2 ^ 52 <= (H * 2 ^ 52 - 64) / 100 * Zpos q ->
  exists v, ratio_percent (Zpos p) (Zpos q) = Some v /\ L <= v < H.
Proof.
  intros Hpq HL HLH HH Hlo Hhi. unfold ratio_percent, int_truediv.
  cbn [Z.eqb of_int_exact].
  set (lo := (L * 2 ^ 52 + 99) / 100) in *.
  set (hi := (H * 2 ^ 52 - 64) / 100) in *.
  assert (P52 : 2 ^ 52 = 4503599627370496) by reflexivity.
  assert (P53 : 2 ^ 53 = 9007199254740992) by reflexivity.
  assert (P46 : 2 ^ 46 = 70368744177664) by reflexivity.
  assert (P6 : 2 ^ 6 = 64) by reflexivity.
  pose proof (Z.div_mod (L * 2 ^ 52 + 99) 100 ltac:(lia)) as D1.
  pose proof (Z.mod_pos_bound (L * 2 ^ 52 + 99) 100 ltac:(lia)) as M1.
  pose proof (Z.div_mod (H * 2 ^ 52 - 64) 100 ltac:(lia)) as D2.
  pose proof (Z.mod_pos_bound (H * 2 ^ 52 - 64) 100 ltac:(lia)) as M2.
  fold lo in D1. fold hi in D2.
  assert (Hlo0 : 0 <= lo) by (apply Z.div_pos; lia).
  apply (to_int_between _ L H HL HLH).
  apply (mul_int_100_between _ lo hi (L * 2 ^ 46) (H * 2 ^ 46 - 1));
    [lia|lia|lia|lia|].
  apply SFdiv_between; lia.
Qed.

End ScoreRounding.

Section ScoreBounds.
Import Float FloatFacts FloatBounds ScoreRounding.
Local Open Scope Z_scope.

Lemma floor_bounds (m n : Z) :
  0 <= m <= n -> 0 < n ->
  0 <= 100 * m / n <= 100
  /\ (100 * m / n) * n <= 100 * m < (100 * m / n + 1) * n.
Proof.
  intros Hm Hn.
  pose proof (Z.div_mod (100 * m) n ltac:(lia)) as D.
  pose proof (Z.mod_pos_bound (100 * m) n Hn) as M.
  assert (0 <= 100 * m / n) by (apply Z.div_pos; lia).
  assert (100 * m / n <= 100) by (apply Z.div_le_upper_bound; lia).
  nia.
Qed.

(** Never more than one below the floor. *)
Lemma percentage_lower (matched job : gset string) :
  matched ⊆ job -> job <> ∅ ->
  exists v, percentage matched job = Some v
    /\ floor_percentage matched job - 1 <= v <= 100.
Proof.
  intros Hsub Hne. unfold percentage, floor_percentage.
  pose proof (subseteq_size _ _ Hsub) as Hsz.
  assert (Hj : size job <> 0%nat) by (rewrite size_non_empty_iff; set_solver).
  destruct (Z.of_nat (size job)) as [|q|q] eqn:Hq; try lia.
  destruct (Z.of_nat (size matched)) as [|p|p] eqn:Hp; try lia.
  - exists 0. split; [reflexivity|]. rewrite Z.mul_0_r, Z.div_0_l; lia.
  - destruct (floor_bounds (Zpos p) (Zpos q) ltac:(lia) ltac:(lia))
      as [HF [HF1 HF2]].
    set (F := 100 * Zpos p / Zpos q) in *.
    assert (P52 : 2 ^ 52 = 4503599627370496) by reflexivity.
    destruct (ratio_percent_between p q (Z.max 0 (F - 1)) 101)
      as (v & Hv & Hb); try lia.
    + pose proof (Z.div_mod (Z.max 0 (F - 1) * 2 ^ 52 + 99) 100 ltac:(lia)) as D.
      pose proof (Z.mod_pos_bound (Z.max 0 (F - 1) * 2 ^ 52 + 99) 100
                    ltac:(lia)) as M.
      rewrite P52 in *.
      destruct (Z.max_spec 0 (F - 1)) as [[? HM]|[? HM]]; rewrite HM in *.
      * set (lo := ((F - 1) * 4503599627370496 + 99) / 100) in *.
        assert (100 * lo * Zpos q <= F * 4503599627370496 * Zpos q) by nia.
        assert (F * 4503599627370496 * Zpos q
                <= 100 * Zpos p * 4503599627370496) by nia.
        lia.
      * change ((0 * 4503599627370496 + 99) / 100) with 0. lia.
    + pose proof (Z.div_mod (101 * 2 ^ 52 - 64) 100 ltac:(lia)) as D.
      pose proof (Z.mod_pos_bound (101 * 2 ^ 52 - 64) 100 ltac:(lia)) as M.
      rewrite P52 in *.
      set (hi := (101 * 4503599627370496 - 64) / 100) in *.
      assert (100 * Zpos p * 4503599627370496
              <= 100 * 4503599627370496 * Zpos q) by nia.
      assert (100 * 4503599627370496 * Zpos q <= 100 * hi * Zpos q) by nia.
      lia.
    + exists v. split; [exact Hv|lia].
Qed.

(** Never above the floor, as long as the job set has at most [2^44]
    skills. *)
Lemma percentage_upper (matched job : gset string) :
  matched ⊆ job -> job <> ∅ -> Z.of_nat (size job) <= 2 ^ 44 ->
  exists v, percentage matched job = Some v
    /\ floor_percentage matched job - 1 <= v <= floor_percentage matched job.
Proof.
  intros Hsub Hne Hbig. unfold percentage, floor_percentage.
  pose proof (subseteq_size _ _ Hsub) as Hsz.
  assert (Hj : size job <> 0%nat) by (rewrite size_non_empty_iff; set_solver).
  destruct (Z.of_nat (size job)) as [|q|q] eqn:Hq; try lia.
  destruct (Z.of_nat (size matched)) as [|p|p] eqn:Hp; try lia.
  - exists 0. split; [reflexivity|]. rewrite Z.mul_0_r, Z.div_0_l; lia.
  - destruct (floor_bounds (Zpos p) (Zpos q) ltac:(lia) ltac:(lia))
      as [HF [HF1 HF2]].
    set (F := 100 * Zpos p / Zpos q) in *.
    assert (P52 : 2 ^ 52 = 4503599627370496) by reflexivity.
    assert (P44 : 2 ^ 44 = 17592186044416) by reflexivity.
    destruct (ratio_percent_between p q (Z.max 0 (F - 1)) (F + 1))
      as (v & Hv & Hb); try lia.
    + pose proof (Z.div_mod (Z.max 0 (F - 1) * 2 ^ 52 + 99) 100 ltac:(lia)) as D.
      pose proof (Z.mod_pos_bound (Z.max 0 (F - 1) * 2 ^ 52 + 99) 100
                    ltac:(lia)) as M.
      rewrite P52 in *.
      destruct (Z.max_spec 0 (F - 1)) as [[? HM]|[? HM]]; rewrite HM in *.
      * set (lo := ((F - 1) * 4503599627370496 + 99) / 100) in *.
        assert (100 * lo * Zpos q <= F * 4503599627370496 * Zpos q) by nia.
        assert (F * 4503599627370496 * Zpos q
                <= 100 * Zpos p * 4503599627370496) by nia.
        lia.
      * change ((0 * 4503599627370496 + 99) / 100) with 0. lia.
    + pose proof (Z.div_mod ((F + 1) * 2 ^ 52 - 64) 100 ltac:(lia)) as D.
      pose proof (Z.mod_pos_bound ((F + 1) * 2 ^ 52 - 64) 100 ltac:(lia)) as M.
      rewrite P52, P44 in *.
      set (hi := ((F + 1) * 4503599627370496 - 64) / 100) in *.
      assert (100 * Zpos p * 4503599627370496 + 4503599627370496
              <= (F + 1) * 4503599627370496 * Zpos q) by nia.
      assert ((F + 1) * 4503599627370496 * Zpos q - 163 * Zpos q
              <= 100 * hi * Zpos q) by nia.
      lia.
    + exists v. split; [exact Hv|lia].
Qed.

End ScoreBounds.

Lemma calculate_match_score_total (resume_skills job_skills : string) :
  exists v, calculate_match_score resume_skills job_skills = Some v
            /\ (0 <= v <= 100)%Z.
Proof.
  rewrite calculate_match_score_unguarded. case_decide as Hj.
  - exists 0%Z. split; [reflexivity|lia].
  - apply percentage_range; [set_solver|exact Hj].
Qed.

Lemma floor_percentage_no_job (matched : gset string) :
  floor_percentage matched ∅ = 0%Z.
Proof. unfold floor_percentage. rewrite size_empty. apply Z.div_0_r. Qed.

(** X1: the score is never more than one below the floor of the exact
    percentage, whatever the two skill strings are. *)
Theorem calculate_match_score_at_least_floor_minus_one
    (resume_skills job_skills : string) :
  exists v : Z,
    calculate_match_score resume_skills job_skills = Some v
    /\ (floor_percentage (skill_set resume_skills ∩ skill_set job_skills)
          (skill_set job_skills) - 1 <= v)%Z.
Proof.
  rewrite calculate_match_score_unguarded. case_decide as Hj.
  - exists 0%Z. split; [reflexivity|].
    rewrite Hj, floor_percentage_no_job. lia.
  - destruct (percentage_lower (skill_set resume_skills ∩ skill_set job_skills)
                (skill_set job_skills)) as (v & Hv & Hb);
      [set_solver|exact Hj|].
    exists v. split; [exact Hv|lia].
Qed.

(** X2: the score never exceeds the floor of the exact percentage, for a
    job set of at most 2^44 skills. *)
Theorem calculate_match_score_at_most_floor
    (resume_skills job_skills : string) :
  (Z.of_nat (size (skill_set job_skills)) <= 2 ^ 44)%Z ->
  exists v : Z,
    calculate_match_score resume_skills job_skills = Some v
    /\ (v <= floor_percentage (skill_set resume_skills ∩ skill_set job_skills)
               (skill_set job_skills))%Z.
Proof.
  intros Hbig. rewrite calculate_match_score_unguarded. case_decide as Hj.
  - exists 0%Z. split; [reflexivity|].
    rewrite Hj, floor_percentage_no_job. lia.
  - destruct (percentage_upper (skill_set resume_skills ∩ skill_set job_skills)
                (skill_set job_skills)) as (v & Hv & Hb);
      [set_solver|exact Hj|exact Hbig|].
    exists v. split; [exact Hv|lia].
Qed.

Lemma calculate_match_score_at_most_floor_witness :
  (Z.of_nat (size (skill_set "python, docker, aws")) <= 2 ^ 44)%Z
  /\ exists v : Z,
      calculate_match_score "python, aws" "python, docker, aws" = Some v
      /\ (v <= floor_percentage
                 (skill_set "python, aws" ∩ skill_set "python, docker, aws")
                 (skill_set "python, docker, aws"))%Z.
Proof.
  assert (H : (Z.of_nat (size (skill_set "python, docker, aws")) <= 2 ^ 44)%Z)
    by (vm_compute; discriminate).
  split; [exact H|].
  exact (calculate_match_score_at_most_floor "python, aws"
           "python, docker, aws" H).
Defined.

Section MissingFacts.

Lemma missing_skills_length (R J : gset string) :
  (length (missing_skills R J) + size (J ∩ R) = size J)%nat.
Proof.
  unfold missing_skills.
  change (length (elements (J ∖ R))) with (size (J ∖ R)).
  rewrite <- size_union by set_solver.
  f_equal. apply set_eq. intros x. destruct (decide (x ∈ R)); set_solver.
Qed.

Lemma missing_skills_nil (R J : gset string) :
  missing_skills R J = [] <-> J ⊆ R.
Proof.
  unfold missing_skills. rewrite elements_empty_iff.
  split; intros H.
  - intros x Hx. destruct (decide (x ∈ R)); [assumption|set_solver].
  - set_solver.
Qed.

End MissingFacts.

(** X3: with a job set that is not empty and has at most 2^44 skills, the
    score is 100 exactly when no skill is missing. *)
Theorem full_score_iff_nothing_missing (resume_skills job_skills : string) :
  skill_set job_skills <> ∅ ->
  (Z.of_nat (size (skill_set job_skills)) <= 2 ^ 44)%Z ->
  calculate_match_score resume_skills job_skills = Some 100%Z
  <-> missing_skills (skill_set resume_skills) (skill_set job_skills) = [].
Proof.
  intros Hne Hbig. rewrite missing_skills_nil.
  rewrite calculate_match_score_unguarded. case_decide as Hj; [contradiction|].
  set (R := skill_set resume_skills) in *. set (J := skill_set job_skills) in *.
  split.
  - intros Hs.
    destruct (decide (J ⊆ R)) as [|Hnot]; [assumption|exfalso].
    assert (Hlt : (size (R ∩ J) < size J)%nat).
    { apply subset_size. split; [set_solver|].
      intros Hsub. apply Hnot. intros x Hx. specialize (Hsub x Hx).
      set_solver. }
    destruct (percentage_upper (R ∩ J) J) as (v & Hv & Hb);
      [set_solver|exact Hj|exact Hbig|].
    rewrite Hv in Hs. injection Hs as ->.
    unfold floor_percentage in Hb.
    assert (100 * Z.of_nat (size (R ∩ J)) / Z.of_nat (size J) < 100)%Z
      by (apply Z.div_lt_upper_bound; lia).
    lia.
  - intros Hsub. replace (R ∩ J) with J by set_solver.
    now apply percentage_all_matched.
Qed.

Lemma full_score_iff_nothing_missing_witness :
  skill_set "python,sql" <> ∅
  /\ (Z.of_nat (size (skill_set "python,sql")) <= 2 ^ 44)%Z
  /\ (calculate_match_score "Python" "python,sql" = Some 100%Z
      <-> missing_skills (skill_set "Python") (skill_set "python,sql") = []).
Proof.
  assert (H1 : skill_set "python,sql" <> ∅)
    by (apply (bool_decide_unpack _); vm_compute; exact I).
  assert (H2 : (Z.of_nat (size (skill_set "python,sql")) <= 2 ^ 44)%Z)
    by (vm_compute; discriminate).
  split; [exact H1|]. split; [exact H2|].
  exact (full_score_iff_nothing_missing "Python" "python,sql" H1 H2).
Defined.

(** X4: a resume that shares no skill with the job scores 0. *)
Theorem calculate_match_score_disjoint (resume_skills job_skills : string) :
  skill_set resume_skills ∩ skill_set job_skills = ∅ ->
  calculate_match_score resume_skills job_skills = Some 0%Z.
Proof.
  intros Hd. rewrite calculate_match_score_unguarded, Hd.
  case_decide; [reflexivity|]. now apply percentage_none_matched.
Qed.

Lemma calculate_match_score_disjoint_witness :
  skill_set "Java, Go" ∩ skill_set "python, docker, aws" = ∅
  /\ calculate_match_score "Java, Go" "python, docker, aws" = Some 0%Z.
Proof.
  assert (H : skill_set "Java, Go" ∩ skill_set "python, docker, aws" = ∅)
    by (vm_compute; reflexivity).
  split; [exact H|].
  exact (calculate_match_score_disjoint "Java, Go" "python, docker, aws" H).
Defined.

(** X5: the score depends on the two strings only through their skill
    sets: spelling a list with other case, spacing, order or repetitions
    does not change it. *)
Theorem calculate_match_score_respects_sets (A A' B B' : string) :
  skill_set A = skill_set A' -> skill_set B = skill_set B' ->
  calculate_match_score A B = calculate_match_score A' B'.
Proof.
  intros HA HB. rewrite !calculate_match_score_unguarded.
  now rewrite HA, HB.
Qed.

Lemma calculate_match_score_respects_sets_witness :
  skill_set "python, aws" = skill_set " AWS ,Python,, aws"
  /\ skill_set "python, docker, aws" = skill_set "Docker,AWS,PYTHON"
  /\ calculate_match_score "python, aws" "python, docker, aws"
     = calculate_match_score " AWS ,Python,, aws" "Docker,AWS,PYTHON".
Proof.
  assert (H1 : skill_set "python, aws" = skill_set " AWS ,Python,, aws")
    by (vm_compute; reflexivity).
  assert (H2 : skill_set "python, docker, aws" = skill_set "Docker,AWS,PYTHON")
    by (vm_compute; reflexivity).
  split; [exact H1|]. split; [exact H2|].
  exact (calculate_match_score_respects_sets _ _ _ _ H1 H2).
Defined.

(** X6: the missing and the matched skills split the job skills: their
    numbers add up to the number of job skills, nothing is missing
    exactly when every job skill is a resume skill, and the score is
    computed from the number of job skills and of missing skills alone. *)
Theorem missing_and_matched_split_job (resume_skills job_skills : string) :
  let R := skill_set resume_skills in
  let J := skill_set job_skills in
  (length (missing_skills R J) + size (J ∩ R) = size J)%nat
  /\ (missing_skills R J = [] <-> J ⊆ R)
  /\ calculate_match_score resume_skills job_skills
     = if decide (J = ∅) then Some 0%Z
       else ratio_percent
              (Z.of_nat (size J - length (missing_skills R J)))
              (Z.of_nat (size J)).
Proof.
  cbn zeta. split; [apply missing_skills_length|].
  split; [apply missing_skills_nil|].
  rewrite calculate_match_score_unguarded. case_decide; [reflexivity|].
  unfold percentage. do 2 f_equal.
  pose proof (missing_skills_length (skill_set resume_skills)
                (skill_set job_skills)) as H1.
  replace (skill_set resume_skills ∩ skill_set job_skills)
    with (skill_set job_skills ∩ skill_set resume_skills) by set_solver.
  lia.
Qed.

Section TokenFacts.
Import Str StrFacts.

Lemma split_not_nil sep s : split sep s <> [].
Proof.
  destruct s as [|c s]; cbn [split]; [discriminate|].
  destruct (Ascii.eqb c sep); [discriminate|].
  destruct (split sep s); discriminate.
Qed.

Lemma split_app sep (a b : string) :
  split sep (a ++ String sep b) = (split sep a ++ split sep b)%list.
Proof.
  induction a as [|c a IH].
  - rewrite append_nil_l. cbn [split]. now rewrite Ascii.eqb_refl.
  - rewrite append_cons. cbn [split]. rewrite IH.
    destruct (Ascii.eqb c sep); [reflexivity|].
    pose proof (split_not_nil sep a).
    destruct (split sep a); [congruence|reflexivity].
Qed.

Lemma skill_tokens_app (a b : string) :
  skill_tokens (a ++ String "," b) = (skill_tokens a ++ skill_tokens b)%list.
Proof.
  unfold skill_tokens. now rewrite split_app, List.filter_app, map_app.
Qed.

Lemma split_lower s : split "," (lower s) = map lower (split "," s).
Proof.
  induction s as [|c s IH]; [reflexivity|].
  cbn [lower split]. rewrite lower_char_comma, IH.
  destruct (Ascii.eqb c ","); [reflexivity|].
  destruct (split "," s); reflexivity.
Qed.

Lemma skill_tokens_lower s : skill_tokens (lower s) = skill_tokens s.
Proof.
  unfold skill_tokens. rewrite split_lower.
  induction (split "," s) as [|u us IH]; [reflexivity|].
  cbn [map List.filter]. rewrite strip_lower, truthy_lower.
  destruct (truthy (strip u)); [|exact IH].
  cbn [map]. now rewrite strip_lower, lower_idem, IH.
Qed.

End TokenFacts.


(** X7: every token of a skill set is free of commas, trimmed, lower-case
    and not empty. *)
Theorem skill_set_tokens_normal (text t : string) :
  t ∈ skill_set text -> normal_token t.
Proof.
  intros Ht. apply elem_of_list_to_set in Ht.
  pose proof (skill_tokens_normal text) as Hn.
  rewrite Forall_forall in Hn. auto.
Qed.

Lemma skill_set_tokens_normal_witness :
  "sql" ∈ skill_set " Python, SQL ,," /\ normal_token "sql".
Proof.
  assert (H : "sql" ∈ skill_set " Python, SQL ,,")
    by (apply (bool_decide_unpack _); vm_compute; exact I).
  split; [exact H|exact (skill_set_tokens_normal _ _ H)].
Defined.

(** X8: the skill set of two lists written one after the other with a
    comma between them is the union of their skill sets, so neither the
    order of the two nor writing a list twice matters. *)
Theorem skill_set_concat (a b : string) :
  skill_set (a ++ String "," b) = skill_set a ∪ skill_set b
  /\ skill_set (a ++ String "," b) = skill_set (b ++ String "," a)
  /\ skill_set (a ++ String "," a) = skill_set a.
Proof.
  assert (H : forall x y, skill_set (x ++ String "," y)
                          = skill_set x ∪ skill_set y).
  { intros x y. unfold skill_set.
    now rewrite skill_tokens_app, list_to_set_app_L. }
  rewrite !H. repeat split; set_solver.
Qed.

(** X9: lower-casing the whole text beforehand changes no token. *)
Theorem skill_set_case_insensitive (text : string) :
  skill_tokens (Str.lower text) = skill_tokens text
  /\ skill_set (Str.lower text) = skill_set text.
Proof.
  split; [apply skill_tokens_lower|].
  unfold skill_set. now rewrite skill_tokens_lower.
Qed.

Section HandlerExtras.
Context {Model World : Type}.
Variable generate_content : Model -> string -> World -> option string * World.
Variable PdfReader : string -> option (list (option string)).
Variable json_loads : string -> option json.
Variable generate_pie_chart_base64 : Z -> string.
Variable generate_bar_chart_base64 : list json -> list Z -> string.
Variable gemini_model : option Model.

Local Abbreviation analyze' :=
  (analyze generate_content PdfReader json_loads gemini_model).
Local Abbreviation process_resume' :=
  (process_resume generate_content PdfReader json_loads
     generate_pie_chart_base64 gemini_model).
Local Abbreviation process_resumes' :=
  (process_resumes generate_content PdfReader json_loads
     generate_pie_chart_base64 gemini_model).
Local Abbreviation analyze_recruiter' :=
  (analyze_recruiter generate_content PdfReader json_loads
     generate_pie_chart_base64 generate_bar_chart_base64 gemini_model).
Local Abbreviation extract_skills' :=
  (extract_skills_from_text generate_content gemini_model).

Ltac case_split :=
  repeat match goal with
         | H : context [match ?x with _ => _ end] |- _ => destruct x eqn:?
         end;
  unfold ret in *; simplify_eq.

(** [extract_skills_from_text] catches everything and returns a trimmed
    text or [None]. *)
Lemma extract_skills_inv text w r w' :
  extract_skills' text w = (r, w') ->
  exists o, r = Some o
    /\ match o with Some s => Str.strip s = s | None => True end.
Proof.
  unfold extract_skills_from_text. intros H. case_split; eauto.
  all: try (eexists; split; [reflexivity|]; first [apply StrFacts.strip_idem|exact I]).
Qed.

Lemma extract_skills_strip text w s w' :
  extract_skills' text w = (Some (Some s), w') -> Str.strip s = s.
Proof.
  intros H. destruct (extract_skills_inv _ _ _ _ H) as (o & Ho & Hs).
  now simplify_eq.
Qed.

Lemma recommend_jobs_inv skills w r w' :
  recommend_jobs_from_skills generate_content json_loads gemini_model skills w
  = (r, w') ->
  exists o, r = Some o.
Proof.
  unfold recommend_jobs_from_skills. intros H. case_split; eauto.
Qed.

Lemma extract_info_inv pdf_text w r w' :
  extract_name_skills_and_contact generate_content json_loads gemini_model
    pdf_text w = (r, w') ->
  exists o, r = Some o.
Proof.
  unfold extract_name_skills_and_contact. intros H. case_split; eauto.
Qed.

Ltac use_inversions :=
  repeat match goal with
    | H : extract_skills_from_text _ _ _ _ = (?r, _) |- _ =>
        is_var r; destruct (extract_skills_inv _ _ _ _ H) as (? & ? & ?); subst r
    | H : recommend_jobs_from_skills _ _ _ _ _ = (?r, _) |- _ =>
        is_var r; destruct (recommend_jobs_inv _ _ _ _ H) as (? & ?); subst r
    | H : extract_name_skills_and_contact _ _ _ _ _ = (?r, _) |- _ =>
        is_var r; destruct (extract_info_inv _ _ _ _ H) as (? & ?); subst r
    | H : extract_skills_from_text _ _ _ _ = (None, _) |- _ =>
        destruct (extract_skills_inv _ _ _ _ H) as (? & ? & ?); discriminate
    | H : recommend_jobs_from_skills _ _ _ _ _ = (None, _) |- _ =>
        destruct (recommend_jobs_inv _ _ _ _ H) as (? & ?); discriminate
    | H : extract_name_skills_and_contact _ _ _ _ _ = (None, _) |- _ =>
        destruct (extract_info_inv _ _ _ _ H) as (? & ?); discriminate
    end;
  simplify_eq.

Lemma analyze_inv req w r w' :
  analyze' req w = (r, w') ->
  exists resp, r = Some resp
    /\ match resp with
       | Error status _ =>
           (status = 400%Z /\ w' = w
            /\ (ar_resume req = None \/ ar_job_desc req = None))
           \/ (status = 500%Z /\ is_Some (ar_resume req)
               /\ is_Some (ar_job_desc req))
       | Ok body =>
           is_Some (ar_resume req) /\ is_Some (ar_job_desc req)
           /\ (0 <= an_match_percentage body <= 100)%Z
           /\ calculate_match_score (an_resume_skills body) (an_job_skills body)
              = Some (an_match_percentage body)
           /\ Str.truthy (an_resume_skills body) = true
           /\ Str.truthy (an_job_skills body) = true
           /\ Str.strip (an_resume_skills body) = an_resume_skills body
           /\ Str.strip (an_job_skills body) = an_job_skills body
           /\ json_truthy (an_recommended_jobs body) = true
       end.
Proof.
  unfold analyze, bind, lift, raise. intros H. case_split.
  all: use_inversions.
  all: try match goal with
    | H : analyze_match_percentage ?a ?b = None |- _ =>
        exfalso; rewrite analyze_match_percentage_eq in H;
        destruct (calculate_match_score_total a b) as (v & Hv & Hr);
        congruence
    end.
  all: try (eexists; split; [reflexivity|]; cbn;
         first [ left; split; [reflexivity|split; [reflexivity|auto]]
               | right; split; [reflexivity|split; eauto] ]; fail).
  eexists; split; [reflexivity|].
  cbn [an_match_percentage an_resume_skills an_job_skills
       an_recommended_jobs].
  match goal with
  | H : analyze_match_percentage ?a ?b = Some ?z |- _ =>
      rewrite analyze_match_percentage_eq in H;
      destruct (calculate_match_score_total a b) as (v & Hv & Hr);
      rewrite Hv in H; simplify_eq
  end.
  match goal with
  | H : negb (Str.truthy ?a) || negb (Str.truthy ?b) = false |- _ =>
      apply orb_false_elim in H as [Ha Hb];
      apply negb_false_iff in Ha, Hb
  end.
  split_and!; try done; try lia; eauto using extract_skills_strip.
Qed.

(** What one turn of the recruiter loop can do. *)
Lemma process_resume_inv job_skills_text job_skills_set f w r w' :
  process_resume' job_skills_text job_skills_set f w = (r, w') ->
  match r with
  | None =>
      exists pdf_text info,
        extract_text_from_pdf PdfReader (content f) = Some pdf_text
        /\ Str.truthy pdf_text = true
        /\ extract_name_skills_and_contact generate_content json_loads
             gemini_model pdf_text w = (Some (Some info), w')
        /\ json_truthy info = true
        /\ well_formed_info info = false
  | Some None => True
  | Some (Some c) =>
      (0 <= match_percentage c <= 100)%Z
      /\ pdf_name c = filename f
      /\ pie_chart c = generate_pie_chart_base64 (match_percentage c)
  end.
Proof.
  unfold process_resume, bind, lift, raise. intros H. case_split.
  all: try match goal with
    | H : extract_name_skills_and_contact _ _ _ _ _ = _ |- _ =>
        destruct (extract_info_inv _ _ _ _ H) as (? & ?); simplify_eq
    end.
  all: try match goal with
    | H : calculate_match_score ?a ?b = None |- _ =>
        exfalso; destruct (calculate_match_score_total a b) as (v & Hv & Hr);
        congruence
    end.
  all: try exact I.
  all: try (cbn [match_percentage pdf_name pie_chart];
            match goal with
            | H : calculate_match_score ?a ?b = Some ?z |- _ =>
                destruct (calculate_match_score_total a b) as (v & Hv & Hr);
                rewrite Hv in H; simplify_eq
            end; split_and!; try done; lia).
  all: eexists _, _; split_and!;
    [ reflexivity
    | apply negb_false_iff; eassumption
    | eassumption
    | apply negb_false_iff; eassumption
    | unfold well_formed_info;
      repeat match goal with H : dict_get _ _ _ = _ |- _ => rewrite H end;
      reflexivity ].
Qed.

Lemma process_resume_malformed job_skills_text job_skills_set f w pdf_text info w' :
  extract_text_from_pdf PdfReader (content f) = Some pdf_text ->
  Str.truthy pdf_text = true ->
  extract_name_skills_and_contact generate_content json_loads
    gemini_model pdf_text w = (Some (Some info), w') ->
  json_truthy info = true ->
  well_formed_info info = false ->
  process_resume' job_skills_text job_skills_set f w = (None, w').
Proof.
  intros Ht Htr Hi Hj Hw. unfold process_resume.
  rewrite Ht, Htr. cbn [negb]. unfold bind, raise.
  rewrite Hi, Hj. cbn [negb].
  unfold well_formed_info in Hw.
  destruct info as [| | | | |items]; try reflexivity.
  destruct (dict_get items "skills" (JStr "")); try reflexivity.
  discriminate.
Qed.

(** The candidates of the loop: one per file at most, in file order, each
    with a percentage between 0 and 100. *)
Lemma process_resumes_inv job_skills_text job_skills_set ups w cs w' :
  process_resumes' job_skills_text job_skills_set ups w = (Some cs, w') ->
  Forall (fun c => (0 <= match_percentage c <= 100)%Z
                   /\ pie_chart c
                      = generate_pie_chart_base64 (match_percentage c)) cs
  /\ sublist (map pdf_name cs) (map filename ups).
Proof.
  revert w cs w'. induction ups as [|f ups IH]; intros w cs w' H.
  - cbn in H. unfold ret in H. simplify_eq. split; constructor.
  - cbn [process_resumes] in H. unfold bind at 1 in H.
    destruct (process_resume' job_skills_text job_skills_set f w)
      as [[c|] w1] eqn:E1; [|discriminate].
    unfold bind in H.
    destruct (process_resumes' job_skills_text job_skills_set ups w1)
      as [[cs1|] w2] eqn:E2; [|discriminate].
    unfold ret in H. simplify_eq.
    destruct (IH _ _ _ E2) as [Hall Hsub].
    apply process_resume_inv in E1.
    destruct c as [c|].
    + destruct E1 as (Hr & Hn & Hp). split.
      * constructor; auto.
      * cbn [map]. rewrite Hn. now apply sublist_skip.
    + split; [exact Hall|]. cbn [map]. now apply sublist_cons.
Qed.

Lemma process_resumes_raise job_skills_text job_skills_set before f after w cs w1 w2 :
  process_resumes' job_skills_text job_skills_set before w = (Some cs, w1) ->
  process_resume' job_skills_text job_skills_set f w1 = (None, w2) ->
  process_resumes' job_skills_text job_skills_set (before ++ f :: after) w
  = (None, w2).
Proof.
  revert w cs. induction before as [|b before IH]; intros w cs Hb Hf.
  - cbn in Hb. unfold ret in Hb. simplify_eq.
    cbn [app process_resumes]. unfold bind at 1. now rewrite Hf.
  - cbn [app process_resumes] in *. unfold bind at 1 in Hb. unfold bind at 1.
    destruct (process_resume' job_skills_text job_skills_set b w)
      as [[c|] w0] eqn:E1; [|discriminate].
    unfold bind in Hb.
    destruct (process_resumes' job_skills_text job_skills_set before w0)
      as [[cs0|] w3] eqn:E2; [|discriminate].
    unfold ret in Hb. simplify_eq.
    unfold bind. now rewrite (IH _ _ E2 Hf).
Qed.

Lemma analyze_recruiter_inv req w r w' :
  analyze_recruiter' req w = (r, w') ->
  match r with
  | Some (Ok body) =>
      exists ups jd job_skills_text w1 cands,
        rr_resumes req = Some ups /\ rr_job_desc req = Some jd
        /\ extract_skills' jd w = (Some (Some job_skills_text), w1)
        /\ Str.truthy job_skills_text = true
        /\ process_resumes' job_skills_text (skill_set job_skills_text) ups w1
           = (Some cands, w')
        /\ candidates body = list_sort match_percentage true cands
        /\ bar_chart body
           = generate_bar_chart_base64 (map chart_name (candidates body))
               (map match_percentage (candidates body))
  | Some (Error status _) =>
      (status = 400%Z /\ w' = w
       /\ (rr_resumes req = None \/ rr_job_desc req = None))
      \/ (status = 500%Z /\ is_Some (rr_resumes req)
          /\ exists jd o, rr_job_desc req = Some jd
               /\ extract_skills' jd w = (Some o, w')
               /\ truthy_opt o = false)
  | None =>
      exists ups jd job_skills_text w1,
        rr_resumes req = Some ups /\ rr_job_desc req = Some jd
        /\ extract_skills' jd w = (Some (Some job_skills_text), w1)
        /\ process_resumes' job_skills_text (skill_set job_skills_text) ups w1
           = (None, w')
  end.
Proof.
  unfold analyze_recruiter, bind. intros H. case_split.
  all: use_inversions.
  all: cbn [candidates bar_chart].
  all: try (left; split_and!; auto; fail).
  all: repeat match goal with
    | H : negb (truthy_opt ?o) = false |- _ =>
        apply negb_false_iff in H; destruct o as [jt|]; [|discriminate];
        cbn [truthy_opt default] in *
    | H : negb (truthy_opt ?o) = true |- _ => apply negb_true_iff in H
    end.
  - right. split_and!; eauto.
  - eexists _, _, _, _, _. split_and!; eauto.
  - eexists _, _, _, _. split_and!; eauto.
Qed.


(** X10: [analyze] lets no exception escape: it always answers, and an
    error answer has status 400 or 500. *)
Theorem analyze_never_raises (req : analyze_request) (w : World) :
  exists resp w',
    analyze' req w = (Some resp, w')
    /\ match resp with
       | Error status _ => status = 400%Z \/ status = 500%Z
       | Ok _ => True
       end.
Proof.
  destruct (analyze' req w) as [r w'] eqn:E.
  destruct (analyze_inv _ _ _ _ E) as (resp & -> & H).
  exists resp, w'. split; [reflexivity|].
  destruct resp as [body|status msg]; [exact I|].
  destruct H as [(-> & _)|(-> & _)]; auto.
Qed.

(** X11: [analyze] answers 400 exactly when the resume file or the job
    description is missing from the request, and then it has called no
    collaborator. *)
Theorem analyze_bad_request_iff (req : analyze_request) (w : World) :
  (ar_resume req = None \/ ar_job_desc req = None)
  <-> exists message w',
        analyze' req w = (Some (Error 400 message), w') /\ w' = w.
Proof.
  split.
  - intros H. exists "No file or job description provided.", w.
    split; [|reflexivity]. unfold analyze.
    destruct H as [-> | H]; [reflexivity|].
    rewrite H. now destruct (ar_resume req).
  - intros (msg & w' & E & _).
    destruct (analyze_inv _ _ _ _ E) as (resp & Hr & H). simplify_eq.
    destruct H as [(_ & _ & H)|(H & _)]; [exact H|discriminate].
Qed.

(** X12: what a successful [analyze] answers: a percentage between 0 and
    100 that is the score of the two skill texts it returns, two skill
    texts that are trimmed and not empty, and job recommendations that are
    not empty. *)
Theorem analyze_ok_invariants (req : analyze_request) (w : World) :
  match fst (analyze' req w) with
  | Some (Ok body) =>
      (0 <= an_match_percentage body <= 100)%Z
      /\ calculate_match_score (an_resume_skills body) (an_job_skills body)
         = Some (an_match_percentage body)
      /\ Str.truthy (an_resume_skills body) = true
      /\ Str.truthy (an_job_skills body) = true
      /\ Str.strip (an_resume_skills body) = an_resume_skills body
      /\ Str.strip (an_job_skills body) = an_job_skills body
      /\ json_truthy (an_recommended_jobs body) = true
  | _ => True
  end.
Proof.
  destruct (analyze' req w) as [r w'] eqn:E. cbn [fst].
  destruct (analyze_inv _ _ _ _ E) as (resp & -> & H).
  destruct resp as [body|]; [|exact I].
  destruct H as (_ & _ & H). exact H.
Qed.

(** X13: what a successful [analyze_recruiter] answers: at most one
    candidate per uploaded file, each named after its file, each with a
    percentage between 0 and 100, in descending order, and a bar chart
    drawn from exactly these candidates. *)
Theorem analyze_recruiter_ok_invariants (req : recruiter_request) (w : World) :
  match fst (analyze_recruiter' req w) with
  | Some (Ok body) =>
      exists uploaded_resumes,
        rr_resumes req = Some uploaded_resumes
        /\ map pdf_name (candidates body) ⊆+ map filename uploaded_resumes
        /\ (length (candidates body) <= length uploaded_resumes)%nat
        /\ Forall (fun c => (0 <= match_percentage c <= 100)%Z)
             (candidates body)
        /\ StronglySorted
             (fun a b => (match_percentage b <= match_percentage a)%Z)
             (candidates body)
        /\ bar_chart body
           = generate_bar_chart_base64 (map chart_name (candidates body))
               (map match_percentage (candidates body))
  | _ => True
  end.
Proof.
  destruct (analyze_recruiter' req w) as [r w'] eqn:E. cbn [fst].
  apply analyze_recruiter_inv in E.
  destruct r as [[body|]|]; try exact I.
  destruct E as (ups & jd & jt & w1 & cands & Hu & _ & _ & _ & Hp & Hc & Hb).
  destruct (process_resumes_inv _ _ _ _ _ _ Hp) as [Hall Hsub].
  pose proof (list_sort_reverse_perm match_percentage cands) as Hperm.
  rewrite <- Hc in Hperm.
  assert (Hms : map pdf_name (candidates body) ⊆+ map filename ups).
  { rewrite (Permutation_map pdf_name Hperm). now apply sublist_submseteq. }
  exists ups. split_and!; auto.
  - apply submseteq_length in Hms. now rewrite !length_map in Hms.
  - rewrite Hperm. eapply Forall_impl; [exact Hall|]. now intros c [? _].
  - rewrite Hc. apply list_sort_reverse_sorted.
Qed.


(** X15: one turn of the recruiter loop raises exactly when the model's
    reply parses to a non-empty JSON value that is not an object, or whose
    skills are not a string. *)
Theorem process_resume_raises_iff_malformed
    (job_skills_text : string) (job_skills_set : gset string)
    (f : upload) (w : World) :
  fst (process_resume' job_skills_text job_skills_set f w) = None
  <-> exists pdf_text info w',
        extract_text_from_pdf PdfReader (content f) = Some pdf_text
        /\ Str.truthy pdf_text = true
        /\ extract_name_skills_and_contact generate_content json_loads
             gemini_model pdf_text w = (Some (Some info), w')
        /\ json_truthy info = true
        /\ well_formed_info info = false.
Proof.
  split.
  - destruct (process_resume' job_skills_text job_skills_set f w)
      as [r w'] eqn:E.
    cbn [fst]. intros ->. apply process_resume_inv in E.
    destruct E as (t & info & ?). eauto.
  - intros (t & info & w' & Ht & Htr & Hi & Hj & Hw).
    now rewrite (process_resume_malformed _ _ _ _ _ _ _ Ht Htr Hi Hj Hw).
Qed.

(** X16: a malformed reply is not skipped: the exception leaves the loop
    and the handler, whatever the files before it yielded and whatever
    files come after it. *)
Theorem recruiter_aborts_on_malformed_reply
    (before after : list upload) (f : upload) (job_desc job_skills_text : string)
    (cands : list candidate) (pdf_text : string) (info : json)
    (w w0 w1 w2 : World) :
  extract_skills' job_desc w = (Some (Some job_skills_text), w0) ->
  Str.truthy job_skills_text = true ->
  process_resumes' job_skills_text (skill_set job_skills_text) before w0
  = (Some cands, w1) ->
  extract_text_from_pdf PdfReader (content f) = Some pdf_text ->
  Str.truthy pdf_text = true ->
  extract_name_skills_and_contact generate_content json_loads
    gemini_model pdf_text w1 = (Some (Some info), w2) ->
  json_truthy info = true ->
  well_formed_info info = false ->
  analyze_recruiter'
    {| rr_resumes := Some (before ++ f :: after)%list;
       rr_job_desc := Some job_desc |} w
  = (None, w2).
Proof.
  intros Hs Hjt Hb Ht Htr Hi Hj Hw.
  unfold analyze_recruiter. cbn [rr_resumes rr_job_desc].
  unfold bind at 1. rewrite Hs. cbn [truthy_opt default from_option id]. rewrite Hjt.
  cbn [negb]. unfold bind.
  rewrite (process_resumes_raise _ _ _ _ after _ _ _ _ Hb
             (process_resume_malformed _ _ _ _ _ _ _ Ht Htr Hi Hj Hw)).
  reflexivity.
Qed.

Lemma process_resumes_all_unreadable job_skills_text job_skills_set ups w :
  Forall (fun f => truthy_opt (extract_text_from_pdf PdfReader (content f))
                   = false) ups ->
  process_resumes' job_skills_text job_skills_set ups w = (Some [], w).
Proof.
  induction 1 as [|f ups Hf _ IH]; [reflexivity|].
  cbn [process_resumes]. unfold bind at 1.
  rewrite (process_resume_unreadable generate_content PdfReader json_loads
             generate_pie_chart_base64 gemini_model _ _ _ _ Hf).
  unfold bind. now rewrite IH.
Qed.

(** X17: when no uploaded file can be read, or none is uploaded, the
    recruiter request still succeeds, with an empty ranking and the bar
    chart of no candidate; only the job description has been sent to the
    model. *)
Theorem recruiter_all_unreadable
    (uploaded_resumes : list upload) (job_desc job_skills_text : string)
    (w w0 : World) :
  Forall (fun f => truthy_opt (extract_text_from_pdf PdfReader (content f))
                   = false) uploaded_resumes ->
  extract_skills' job_desc w = (Some (Some job_skills_text), w0) ->
  Str.truthy job_skills_text = true ->
  analyze_recruiter'
    {| rr_resumes := Some uploaded_resumes; rr_job_desc := Some job_desc |} w
  = (Some (Ok {| candidates := [];
                 bar_chart := generate_bar_chart_base64 [] [] |}), w0).
Proof.
  intros Hall Hs Hjt. unfold analyze_recruiter. cbn [rr_resumes rr_job_desc].
  unfold bind at 1. rewrite Hs. cbn [truthy_opt default from_option id]. rewrite Hjt.
  cbn [negb]. unfold bind.
  now rewrite (process_resumes_all_unreadable _ _ _ _ Hall).
Qed.


(** X19: [extract_skills_from_text] never raises, and the text it returns,
    if any, has no white space at either end. *)
Theorem extract_skills_trimmed (text : string) (w : World) :
  exists o w',
    extract_skills' text w = (Some o, w')
    /\ match o with
       | Some s => Str.strip s = s
       | None => True
       end.
Proof.
  destruct (extract_skills' text w) as [r w'] eqn:E.
  destruct (extract_skills_inv _ _ _ _ E) as (o & -> & H). eauto.
Qed.

Lemma extract_text_no_text pdf_file :
  (PdfReader pdf_file = None
   \/ exists pages,
        PdfReader pdf_file = Some pages
        /\ Forall (fun page => default EmptyString page = EmptyString) pages) ->
  truthy_opt (extract_text_from_pdf PdfReader pdf_file) = false.
Proof.
  unfold extract_text_from_pdf. intros [-> | (pages & -> & Hall)];
    [reflexivity|].
  cbn [truthy_opt].
  replace (Str.join EmptyString (map (fun t => default EmptyString t) pages))
    with EmptyString; [reflexivity|].
  induction Hall as [|page pages Hp _ IH]; [reflexivity|].
  cbn [map Str.join]. rewrite Hp.
  destruct (map (fun t => default EmptyString t) pages); [reflexivity|].
  now rewrite !StrFacts.append_nil_l.
Qed.

(** X24: a PDF that cannot be opened, or whose pages all carry no text,
    makes [analyze] answer 500 before the model is called. *)
Theorem analyze_pdf_without_text
    (resume_file job_desc : string) (w : World) :
  (PdfReader resume_file = None
   \/ exists pages,
        PdfReader resume_file = Some pages
        /\ Forall (fun page => default EmptyString page = EmptyString) pages) ->
  analyze' {| ar_resume := Some resume_file; ar_job_desc := Some job_desc |} w
  = (Some (Error 500 "Failed to extract text from PDF."), w).
Proof.
  intros H. apply extract_text_no_text in H.
  unfold analyze. cbn [ar_resume ar_job_desc].
  destruct (extract_text_from_pdf PdfReader resume_file) as [t|];
    [|reflexivity].
  cbn [truthy_opt] in H. now rewrite H.
Qed.

End HandlerExtras.

Lemma recruiter_aborts_on_malformed_reply_witness :
  extract_skills_from_text Demo.generate_content (Some tt) "python developer"
    0%nat = (Some (Some "python, docker, aws"), 1%nat)
  /\ Str.truthy "python, docker, aws" = true
  /\ process_resumes Demo.generate_content Demo.PdfReader Malformed.json_loads
       Demo.generate_pie_chart_base64 (Some tt) "python, docker, aws"
       (skill_set "python, docker, aws") [Demo.broken_pdf] 1%nat
     = (Some [], 1%nat)
  /\ extract_text_from_pdf Demo.PdfReader (content Demo.ann_pdf) = Some "Ann"
  /\ Str.truthy "Ann" = true
  /\ extract_name_skills_and_contact Demo.generate_content
       Malformed.json_loads (Some tt) "Ann" 1%nat
     = (Some (Some (JArr [JStr "python"; JStr "aws"])), 2%nat)
  /\ json_truthy (JArr [JStr "python"; JStr "aws"]) = true
  /\ well_formed_info (JArr [JStr "python"; JStr "aws"]) = false
  /\ analyze_recruiter Demo.generate_content Demo.PdfReader
       Malformed.json_loads Demo.generate_pie_chart_base64
       Demo.generate_bar_chart_base64 (Some tt)
       {| rr_resumes :=
            Some ([Demo.broken_pdf] ++ Demo.ann_pdf :: [Demo.bob_pdf])%list;
          rr_job_desc := Some "python developer" |} 0%nat
     = (None, 2%nat).
Proof.
  do 8 (split; [reflexivity|]).
  exact (recruiter_aborts_on_malformed_reply Demo.generate_content
           Demo.PdfReader Malformed.json_loads Demo.generate_pie_chart_base64
           Demo.generate_bar_chart_base64 (Some tt)
           [Demo.broken_pdf] [Demo.bob_pdf] Demo.ann_pdf "python developer"
           "python, docker, aws" [] "Ann" (JArr [JStr "python"; JStr "aws"])
           0%nat 1%nat 1%nat 2%nat
           eq_refl eq_refl eq_refl eq_refl eq_refl eq_refl eq_refl eq_refl).
Defined.

Lemma recruiter_all_unreadable_witness :
  Forall (fun f => truthy_opt (extract_text_from_pdf Demo.PdfReader (content f))
                   = false) [Demo.broken_pdf; Demo.broken_pdf]
  /\ extract_skills_from_text Demo.generate_content (Some tt)
       "python developer" 0%nat = (Some (Some "python, docker, aws"), 1%nat)
  /\ Str.truthy "python, docker, aws" = true
  /\ analyze_recruiter Demo.generate_content Demo.PdfReader Demo.json_loads
       Demo.generate_pie_chart_base64 Demo.generate_bar_chart_base64 (Some tt)
       {| rr_resumes := Some [Demo.broken_pdf; Demo.broken_pdf];
          rr_job_desc := Some "python developer" |} 0%nat
     = (Some (Ok {| candidates := [];
                    bar_chart := Demo.generate_bar_chart_base64 [] [] |}),
        1%nat).
Proof.
  assert (H : Forall
                (fun f => truthy_opt
                            (extract_text_from_pdf Demo.PdfReader (content f))
                          = false) [Demo.broken_pdf; Demo.broken_pdf])
    by (repeat constructor).
  split; [exact H|]. split; [reflexivity|]. split; [reflexivity|].
  exact (recruiter_all_unreadable Demo.generate_content Demo.PdfReader
           Demo.json_loads Demo.generate_pie_chart_base64
           Demo.generate_bar_chart_base64 (Some tt)
           [Demo.broken_pdf; Demo.broken_pdf] "python developer"
           "python, docker, aws" 0%nat 1%nat H eq_refl eq_refl).
Defined.

Lemma analyze_pdf_without_text_witness :
  (Demo.PdfReader EmptyString = None
   \/ exists pages,
        Demo.PdfReader EmptyString = Some pages
        /\ Forall (fun page => default EmptyString page = EmptyString) pages)
  /\ analyze Demo.generate_content Demo.PdfReader Demo.json_loads (Some tt)
       {| ar_resume := Some EmptyString; ar_job_desc := Some "python developer" |}
       0%nat
     = (Some (Error 500 "Failed to extract text from PDF."), 0%nat).
Proof.
  assert (H : Demo.PdfReader EmptyString = None
              \/ exists pages,
                   Demo.PdfReader EmptyString = Some pages
                   /\ Forall (fun page => default EmptyString page = EmptyString)
                        pages)
    by (left; reflexivity).
  split; [exact H|].
  exact (analyze_pdf_without_text Demo.generate_content Demo.PdfReader
           Demo.json_loads (Some tt) EmptyString "python developer" 0%nat H).
Defined.

(** ** More on the ranking *)

Section RankingExtras.
Context {A : Type} (key : A -> Z).
Local Open Scope Z_scope.

Lemma stable_sort_of_sorted l :
  StronglySorted (fun a b => key a <= key b) l -> stable_sort key l = l.
Proof.
  induction 1 as [|x l Hs IH Hall]; [reflexivity|].
  change (stable_sort key (x :: l))
    with (insert_sorted key x (stable_sort key l)).
  rewrite IH. destruct l as [|y l']; [reflexivity|].
  cbn [insert_sorted]. inversion Hall; subst.
  destruct (Z.ltb_spec (key y) (key x)); [lia|reflexivity].
Qed.

Lemma list_sort_reverse_of_sorted l :
  StronglySorted (fun a b => key b <= key a) l -> list_sort key true l = l.
Proof.
  intros Hs. cbn [list_sort].
  rewrite stable_sort_of_sorted; [apply rev_involutive|].
  apply (StronglySorted_rev (fun a b => key b <= key a)), Hs.
Qed.

Lemma list_sort_reverse_head l :
  match list_sort key true l with
  | best :: _ => Forall (fun c => key c <= key best) l
  | [] => l = []
  end.
Proof.
  pose proof (list_sort_reverse_sorted key l) as Hs.
  pose proof (list_sort_reverse_perm key l) as Hp.
  destruct (list_sort key true l) as [|best rest].
  - now apply Permutation_nil in Hp.
  - rewrite <- Hp. inversion Hs; subst.
    constructor; [lia|assumption].
Qed.

End RankingExtras.

(** X20: ranking a ranked list changes nothing: sorting the candidates a
    second time returns the same list. *)
Theorem recruiter_ranking_idempotent (cands : list candidate) :
  list_sort match_percentage true (list_sort match_percentage true cands)
  = list_sort match_percentage true cands.
Proof. apply list_sort_reverse_of_sorted, list_sort_reverse_sorted. Qed.

(** X21: the first candidate of the ranking has the highest match
    percentage of all candidates, and the ranking is empty only when there
    is no candidate. *)
Theorem recruiter_ranking_first_is_best (cands : list candidate) :
  match list_sort match_percentage true cands with
  | best :: _ =>
      Forall (fun c => (match_percentage c <= match_percentage best)%Z) cands
  | [] => cands = []
  end.
Proof. apply list_sort_reverse_head. Qed.

(** ** The pie chart of a candidate *)

Section PieFacts.
Context {Model World : Type}.
Variable generate_content : Model -> string -> World -> option string * World.
Variable PdfReader : string -> option (list (option string)).
Variable json_loads : string -> option json.
Variable plt_pie : Z * Z -> Z * Z -> string.
Variable gemini_model : option Model.

(** X22: the pie chart of every candidate of the loop is drawn from two
    wedge sizes that are not negative and add up to 100, with exactly one
    wedge pulled out, and never an empty one. *)
Theorem candidate_pie_chart_wedges
    (job_skills_text : string) (job_skills_set : gset string)
    (f : upload) (w : World) :
  match fst (process_resume generate_content PdfReader json_loads
               (generate_pie_chart_base64_with plt_pie) gemini_model
               job_skills_text job_skills_set f w) with
  | Some (Some c) =>
      exists matched missing pull_matched pull_missing,
        pie_chart c = plt_pie (matched, missing) (pull_matched, pull_missing)
        /\ matched = match_percentage c
        /\ (0 <= matched)%Z /\ (0 <= missing)%Z
        /\ (matched + missing = 100)%Z
        /\ (pull_matched + pull_missing = 1)%Z
        /\ (0 < pull_matched * matched + pull_missing * missing)%Z
  | _ => True
  end.
Proof.
  destruct (process_resume _ _ _ _ _ _ _ f w) as [r w'] eqn:E. cbn [fst].
  apply process_resume_inv in E.
  destruct r as [[c|]|]; try exact I.
  destruct E as (Hr & _ & Hp).
  unfold generate_pie_chart_base64_with, pie_sizes, pie_explode in Hp.
  destruct (Z.ltb_spec 0 (match_percentage c)).
  - exists (match_percentage c), (100 - match_percentage c)%Z, 1%Z, 0%Z.
    split_and!; auto; lia.
  - exists (match_percentage c), (100 - match_percentage c)%Z, 0%Z, 1%Z.
    split_and!; auto; lia.
Qed.

End PieFacts.

(** ** Cleaning a reply *)

Section CleanFacts.
Import Str StrFacts.

Lemma append_nil_r (s : string) : (s ++ EmptyString)%string = s.
Proof.
  induction s as [|c s IH]; [reflexivity|]. now rewrite append_cons, IH.
Qed.

Lemma length_append (s t : string) :
  String.length (s ++ t) = (String.length s + String.length t)%nat.
Proof.
  induction s as [|c s IH]; [reflexivity|].
  rewrite append_cons. cbn [String.length]. now rewrite IH.
Qed.

Lemma remove_fuel_nil fuel old : remove_fuel fuel old EmptyString = EmptyString.
Proof. destruct fuel; reflexivity. Qed.

(** Nothing is removed from a stretch without a backtick. *)
Lemma remove_fuel_plain old' body rest fuel :
  has_char "`" body = false ->
  (String.length body <= fuel)%nat ->
  remove_fuel fuel (String "`" old') (body ++ rest)
  = (body ++ remove_fuel (fuel - String.length body) (String "`" old') rest)%string.
Proof.
  revert fuel. induction body as [|c body IH]; intros fuel Hc Hf.
  - rewrite !append_nil_l. cbn [String.length]. now rewrite Nat.sub_0_r.
  - cbn in Hc. apply orb_false_elim in Hc as [Hc Hb].
    cbn [String.length] in *. destruct fuel as [|fuel]; [lia|].
    rewrite !append_cons. cbn [remove_fuel startswith].
    rewrite Ascii.eqb_sym, Hc. cbn [andb].
    rewrite IH by (auto; lia). reflexivity.
Qed.

Lemma remove_fuel_hit fuel old c s :
  startswith old (String c s) = true ->
  remove_fuel (S fuel) old (String c s)
  = remove_fuel fuel old (drop (String.length old) (String c s)).
Proof. intros H. cbn [remove_fuel]. now rewrite H. Qed.

Lemma remove_plain old' s :
  has_char "`" s = false -> remove (String "`" old') s = s.
Proof.
  intros H. unfold remove.
  rewrite <- (append_nil_r s) at 2.
  rewrite remove_fuel_plain by (auto; lia).
  now rewrite remove_fuel_nil, append_nil_r.
Qed.

End CleanFacts.

(** X23: a reply without a backtick is only trimmed, and a reply wrapped
    in a json code fence is reduced to its trimmed content. *)
Theorem clean_reply_unwraps_fence (body : string) :
  Str.has_char "`" body = false ->
  clean_reply body = Str.strip body
  /\ clean_reply ("```json" ++ body ++ "```") = Str.strip body.
Proof.
  intros H. unfold clean_reply, fence, fence_json. split.
  - now rewrite (remove_plain _ body H), (remove_plain _ body H).
  - assert (H1 : Str.remove "```json" ("```json" ++ body ++ "```")
                 = (body ++ "```")%string).
    { unfold Str.remove. set (rest := (body ++ "```")%string).
      change ("```json" ++ rest)%string
        with (String "`" (String "`" (String "`" (String "j" (String "s"
               (String "o" (String "n" rest))))))).
      cbn [String.length]. rewrite remove_fuel_hit by reflexivity.
      cbn [Str.drop String.length]. subst rest.
      rewrite length_append. cbn [String.length].
      rewrite remove_fuel_plain by (auto; lia).
      replace (S (S (S (S (S (S (String.length body + 3))))))
               - String.length body)%nat with 9%nat by lia.
      reflexivity. }
    assert (H2 : Str.remove "```" (body ++ "```") = body).
    { unfold Str.remove. rewrite length_append. cbn [String.length].
      rewrite remove_fuel_plain by (auto; lia).
      replace (String.length body + 3 - String.length body)%nat
        with 3%nat by lia.
      cbn. apply append_nil_r. }
    now rewrite H1, H2.
Qed.

Lemma clean_reply_unwraps_fence_witness :
  Str.has_char "`" " ann " = false
  /\ clean_reply " ann " = Str.strip " ann "
  /\ clean_reply ("```json" ++ " ann " ++ "```") = Str.strip " ann ".
Proof.
  split; [reflexivity|].
  exact (clean_reply_unwraps_fence " ann " eq_refl).
Defined.
